(** * nexo_im: conversation engine, gateway connection, internal auth, actors

    A shallow embedding of the parts of the nexo_im backend that its
    specification makes claims about:

    - [sdk/actor.go]                         (actor id helpers)
    - [internal/service] conversation service (list page, get, update)
    - [internal/handler] conversation handler (limit check, unread count)
    - [internal/middleware/internal_auth.go]  (service-to-service signature)
    - [pkg/jwt] multi-issuer token parsing
    - [internal/gateway] websocket connection wrapper

    and of the code around them: the JWT middleware
    ([internal/middleware/auth.go]), the trace id and the request log
    ([trace_id.go], [logger.go]), the other conversation handlers, and the
    headers the SDK client sends ([sdk]).

    Go values are modelled as follows.  [int64] and [int] are [Z] with the
    two's-complement wrap-around written out ([Int64.wrap]); Go strings and
    byte slices are [string] (a list of 8-bit characters, as in Go); a slice
    is a [list] (the nil slice is [[]]); a pointer result that may be nil is
    an [option]; a [(value, error)] result is a pair whose second component
    is an [option]; a Go map is a [gmap]. *)

From Stdlib Require Import ZArith String Ascii List Bool Lia.
From stdpp Require Import base option gmap strings list.

Local Open Scope string_scope.
Local Open Scope Z_scope.

(** ** Part I: the embedding *)

(** *** Machine integers *)

Module Int64.

Definition min_int : Z := - 2 ^ 63.
Definition max_int : Z := 2 ^ 63 - 1.

Definition fits (z : Z) : Prop := min_int <= z <= max_int.

Definition fitsb (z : Z) : bool := (min_int <=? z) && (z <=? max_int).

(** Two's-complement reduction of a mathematical integer to an [int64]. *)
Definition wrap (z : Z) : Z := (z + 2 ^ 63) mod 2 ^ 64 - 2 ^ 63.

Definition add (a b : Z) : Z := wrap (a + b).
Definition sub (a b : Z) : Z := wrap (a - b).
Definition neg (a : Z) : Z := wrap (- a).

End Int64.

(** *** The fragment of Go's [strings] and [strconv] the code calls

    Characters are bytes.  The functions below are Go's on ASCII input;
    bytes above 0x7f are left alone (Go would also fold the case of, and
    trim, some multi-byte runes). *)

Module GoStrings.

Definition byte_val (c : ascii) : Z := Z.of_N (N_of_ascii c).

Definition is_space (c : ascii) : bool :=
  let n := byte_val c in
  (n =? 9) || (n =? 10) || (n =? 11) || (n =? 12) || (n =? 13) || (n =? 32).

Definition is_upper (c : ascii) : bool :=
  let n := byte_val c in (65 <=? n) && (n <=? 90).

Definition is_lower (c : ascii) : bool :=
  let n := byte_val c in (97 <=? n) && (n <=? 122).

Definition lower_char (c : ascii) : ascii :=
  if is_upper c then ascii_of_N (N_of_ascii c + 32) else c.

Definition upper_char (c : ascii) : ascii :=
  if is_lower c then ascii_of_N (N_of_ascii c - 32) else c.

Fixpoint map_string (f : ascii -> ascii) (s : string) : string :=
  match s with
  | EmptyString => EmptyString
  | String c s' => String (f c) (map_string f s')
  end.

(** [strings.ToLower], [strings.ToUpper] *)
Definition ToLower (s : string) : string := map_string lower_char s.
Definition ToUpper (s : string) : string := map_string upper_char s.

(** [strings.EqualFold]: equality up to the case of letters. *)
Fixpoint EqualFold (s t : string) : bool :=
  match s, t with
  | EmptyString, EmptyString => true
  | String a s', String b t' =>
      if Ascii.eqb (lower_char a) (lower_char b) then EqualFold s' t' else false
  | _, _ => false
  end.

Fixpoint trim_left (s : string) : string :=
  match s with
  | EmptyString => EmptyString
  | String c s' => if is_space c then trim_left s' else s
  end.

Fixpoint trim_right (s : string) : string :=
  match s with
  | EmptyString => EmptyString
  | String c s' =>
      match trim_right s' with
      | EmptyString => if is_space c then EmptyString else String c EmptyString
      | r => String c r
      end
  end.

(** [strings.TrimSpace] *)
Definition TrimSpace (s : string) : string := trim_right (trim_left s).

(** [strings.Join] *)
Fixpoint Join (parts : list string) (sep : string) : string :=
  match parts with
  | [] => EmptyString
  | [p] => p
  | p :: rest => p ++ sep ++ Join rest sep
  end.

(** [strings.HasPrefix] and the remainder after the prefix. *)
Fixpoint strip_prefix (p s : string) : option string :=
  match p, s with
  | EmptyString, _ => Some s
  | String a p', String b s' =>
      if Ascii.eqb a b then strip_prefix p' s' else None
  | String _ _, EmptyString => None
  end.


(** **** [strconv.ParseInt(s, 10, 64)] *)

Inductive NumError := ErrSyntax | ErrRange.

Definition digit_val (c : ascii) : option Z :=
  let n := byte_val c in
  if (48 <=? n) && (n <=? 57) then Some (n - 48) else None.

(** The digit loop of [ParseUint]: stops at the first character that is not
    a digit (syntax error, value 0) or at the first digit that takes the
    value past [2^64 - 1] (range error, value [2^64 - 1]). *)
Fixpoint parseUint_loop (s : string) (n : Z) : Z * option NumError :=
  match s with
  | EmptyString => (n, None)
  | String c s' =>
      match digit_val c with
      | None => (0, Some ErrSyntax)
      | Some d =>
          if 2 ^ 64 <=? n * 10 + d then (2 ^ 64 - 1, Some ErrRange)
          else parseUint_loop s' (n * 10 + d)
      end
  end.

Definition ParseUint (s : string) : Z * option NumError :=
  match s with
  | EmptyString => (0, Some ErrSyntax)
  | _ => parseUint_loop s 0
  end.

Definition ParseInt (s : string) : Z * option NumError :=
  match s with
  | EmptyString => (0, Some ErrSyntax)
  | String c rest =>
      let '(neg, body) :=
        if Ascii.eqb c "+" then (false, rest)
        else if Ascii.eqb c "-" then (true, rest)
        else (false, s) in
      match ParseUint body with
      | (_, Some ErrSyntax) => (0, Some ErrSyntax)
      | (un, _) =>
          if negb neg && (2 ^ 63 <=? un) then (2 ^ 63 - 1, Some ErrRange)
          else if neg && (2 ^ 63 <? un) then (- 2 ^ 63, Some ErrRange)
          else (if neg then - un else un, None)
      end
  end.

(** **** [strconv.FormatInt(v, 10)], which is also what [%d] prints *)

Definition digit_char (d : Z) : ascii := ascii_of_N (Z.to_N (48 + d)).

(** Digits of a non-negative number, least significant first, pushed in
    front of [acc]; an unsigned 64-bit value has at most 20 digits. *)
Fixpoint format_digits (fuel : nat) (n : Z) (acc : string) : string :=
  match fuel with
  | O => acc
  | S fuel' =>
      let acc' := String (digit_char (n mod 10)) acc in
      if n <? 10 then acc' else format_digits fuel' (n / 10) acc'
  end.

Definition FormatUint (n : Z) : string := format_digits 20 n EmptyString.

Definition FormatInt (v : Z) : string :=
  if v <? 0 then String "-" (FormatUint (- v)) else FormatUint v.

End GoStrings.

(** *** Errors ([pkg/errcode] and plain Go errors) *)

Module errcode.

Inductive Error :=
| ErrInvalidParam
| ErrUnauthorized
| ErrForbidden
| ErrTokenInvalid
| ErrTokenMissing
| ErrConvNotFound
| ErrInternalServer
| ErrInvalidActor                (* a user id string that is not an actor's *)
| ErrOther (detail : string).    (* an error of a library or of the storage layer *)

End errcode.

(** A Go [error] value; [None] is [nil]. *)
Definition goerror : Type := option errcode.Error.

(** A call either returns or panics (nil dereference, closing a closed
    channel). *)
Inductive Outcome (A : Type) :=
| Returns (a : A)
| Panics.
Arguments Returns {A} a.
Arguments Panics {A}.

(** *** Actors ([common.Actor], used by [sdk/actor.go]) *)

Module common.

(** The role of an actor; [RoleNone] is the zero value a fresh [Actor]
    holds before it is filled in. *)
Inductive ActorRole := RoleNone | RoleUser | RoleAgent.

Record Actor := { Id : Z; Role : ActorRole }.

(** [new(common.Actor)] *)
Definition zero_actor : Actor := {| Id := 0; Role := RoleNone |}.

Definition valid_role (r : ActorRole) : bool :=
  match r with RoleUser | RoleAgent => true | RoleNone => false end.

(** Modelled from the spec: [common.Actor]'s methods are not among the
    sources.  The canonical string form is the role tag followed by the
    decimal id; the tags are the ones the repository's tests use
    (["u___12"] is user 12, ["ag__34"] is agent 34). *)
Definition role_tag (r : ActorRole) : option string :=
  match r with
  | RoleUser => Some "u___"
  | RoleAgent => Some "ag__"
  | RoleNone => None
  end.

(** Modelled from the spec: [Actor.ToIMUserId], the canonical string form
    of an actor, an error for an actor without a role. *)
Definition ToIMUserId (a : Actor) : string * goerror :=
  match role_tag (Role a) with
  | Some tag => (tag ++ GoStrings.FormatInt (Id a), None)
  | None => (EmptyString, Some errcode.ErrInvalidActor)
  end.

(** Modelled from the spec: the id part of a user id string, a decimal
    [int64]. *)
Definition parse_id (r : ActorRole) (body : string) : option Actor :=
  match GoStrings.ParseInt body with
  | (id, None) => Some {| Id := id; Role := r |}
  | (_, Some _) => None
  end.

(** Modelled from the spec: [Actor.FromIMUserId], the inverse of
    [ToIMUserId].  It fills the receiver in and returns [nil], or leaves
    the receiver as it was and returns the error for a malformed id. *)
Definition FromIMUserId (a : Actor) (userId : string) : Actor * goerror :=
  let parsed :=
    match GoStrings.strip_prefix "u___" userId with
    | Some body => parse_id RoleUser body
    | None =>
        match GoStrings.strip_prefix "ag__" userId with
        | Some body => parse_id RoleAgent body
        | None => None
        end
    end in
  match parsed with
  | Some a' => (a', None)
  | None => (a, Some errcode.ErrInvalidActor)
  end.

End common.

(** [sdk/actor.go].  The functions take the two [common.Actor] methods they
    call as arguments, so that what they do themselves can be stated for
    every implementation of the methods. *)

Module sdk.
Import common.

Section WithActorMethods.

Variable toIMUserId : Actor -> string * goerror.
Variable fromIMUserId : Actor -> string -> Actor * goerror.

Definition GetUserActorUserId (userId : Z) : string :=
  let ac := {| Id := userId; Role := RoleUser |} in
  fst (toIMUserId ac).

Definition GetAgentActorUserId (agentId : Z) : string :=
  let ac := {| Id := agentId; Role := RoleAgent |} in
  fst (toIMUserId ac).

Definition MGetUserActorUserIds (userIds : list Z) : list string :=
  fold_left (fun ret userId => (ret ++ [GetUserActorUserId userId])%list) userIds [].

Definition MGetAgentActorUserIds (agentIds : list Z) : list string :=
  fold_left (fun ret agentId => (ret ++ [GetAgentActorUserId agentId])%list) agentIds [].

Definition GetActorFromUserId (userId : string) : Actor * goerror :=
  fromIMUserId zero_actor userId.

(** The loop of [MGetActorFromUserIds]: [ret] is never appended to. *)
Fixpoint MGetActorFromUserIds_loop (ret : list Actor) (userIds : list string)
  : list Actor * goerror :=
  match userIds with
  | [] => (ret, None)
  | userId :: rest =>
      match fromIMUserId zero_actor userId with
      | (_, Some err) => ([], Some err)
      | (_, None) => MGetActorFromUserIds_loop ret rest
      end
  end.

Definition MGetActorFromUserIds (userIds : list string) : list Actor * goerror :=
  MGetActorFromUserIds_loop [] userIds.

End WithActorMethods.

End sdk.

(** *** Conversation entities ([internal/entity]): the fields the service
    and the handler read and write *)

Module entity.

Module Conversation.
Record t := mk {
  ConversationId : string;
  ConversationType : Z;
  PeerUserId : string;
  GroupId : string;
  RecvMsgOpt : Z;
  IsPinned : bool;
  UpdatedAt : Z
}.
End Conversation.

Module ConversationWithSeq.
Record t := mk {
  ConversationId : string;
  ConversationType : Z;
  PeerUserId : string;
  GroupId : string;
  RecvMsgOpt : Z;
  IsPinned : bool;
  UnreadCount : Z;
  MaxSeq : Z;
  ReadSeq : Z;
  UpdatedAt : Z
}.
End ConversationWithSeq.

Module SeqConversation.
Record t := mk { MaxSeq : Z }.
End SeqConversation.

Module SeqUser.
Record t := mk { ReadSeq : Z }.
End SeqUser.

Module ConversationInfo.
Record t (MessageInfo : Type) := mk {
  ConversationId : string;
  ConversationType : Z;
  PeerUserId : string;
  GroupId : string;
  RecvMsgOpt : Z;
  IsPinned : bool;
  UnreadCount : Z;
  MaxSeq : Z;
  ReadSeq : Z;
  UpdatedAt : Z;
  LastMessage : option MessageInfo
}.
Arguments mk {MessageInfo}.
Arguments ConversationId {MessageInfo}.
Arguments ConversationType {MessageInfo}.
Arguments PeerUserId {MessageInfo}.
Arguments GroupId {MessageInfo}.
Arguments RecvMsgOpt {MessageInfo}.
Arguments IsPinned {MessageInfo}.
Arguments UnreadCount {MessageInfo}.
Arguments MaxSeq {MessageInfo}.
Arguments ReadSeq {MessageInfo}.
Arguments UpdatedAt {MessageInfo}.
Arguments LastMessage {MessageInfo}.
End ConversationInfo.

End entity.

(** *** Repositories ([internal/repository])

    The storage layer is an interface here: every method reads (and
    [Update] also writes) a database state of type [DB].  A value stored in
    an update map ([map[string]interface{}]) is an [int32] or a [bool]. *)

Module repository.
Import entity.

Inductive UpdateValue :=
| VInt32 (v : Z)
| VBool (b : bool).

Class Messages := {
  Message : Type;
  MessageInfo : Type;
  ToMessageInfo : Message -> MessageInfo
}.

Record ConversationRepo (DB : Type) := {
  GetByOwnerAndConvId :
    DB -> string -> string -> option Conversation.t * goerror;
  GetUserConversationsWithSeqPage :
    DB -> string -> Z -> Z -> string -> list ConversationWithSeq.t * goerror;
  Update :
    DB -> string -> string -> gmap string UpdateValue -> DB * goerror
}.
Arguments GetByOwnerAndConvId {DB}.
Arguments GetUserConversationsWithSeqPage {DB}.
Arguments Update {DB}.

Record SeqRepo (DB : Type) := {
  GetConversationSeqInfo : DB -> string -> option SeqConversation.t * goerror;
  GetSeqUser : DB -> string -> string -> option SeqUser.t * goerror
}.
Arguments GetConversationSeqInfo {DB}.
Arguments GetSeqUser {DB}.

Record MessageRepo `{Messages} (DB : Type) := {
  BatchGetByConvSeq : DB -> gmap string Z -> gmap string Message * goerror
}.
Arguments BatchGetByConvSeq {_ DB}.

End repository.

(** *** The conversation service ([internal/service]) *)

Module service.
Import entity repository.

Definition DefaultConversationListLimit : Z := 20.
Definition MaxConversationListLimit : Z := 100.

Record ConversationListCursor := {
  cursor_UpdatedAt : Z;
  cursor_ConversationId : string
}.

Record ConversationListResult (MessageInfo : Type) := {
  List : list (ConversationInfo.t MessageInfo);
  HasMore : bool;
  NextCursor : option ConversationListCursor
}.
Arguments List {MessageInfo}.
Arguments HasMore {MessageInfo}.
Arguments NextCursor {MessageInfo}.

Record UpdateConversationRequest := {
  req_RecvMsgOpt : option Z;
  req_IsPinned : option bool
}.

(** A call to the storage layer's [Update], as seen from outside. *)
Inductive RepoCall :=
| CallUpdate (userId conversationId : string) (updates : gmap string UpdateValue).

Section WithRepositories.

Context `{Messages} {DB : Type}.

Record ConversationService := {
  convRepo : ConversationRepo DB;
  msgRepo : MessageRepo DB;
  seqRepo : SeqRepo DB
}.

Variable s : ConversationService.

(** The two [if]s at the head of [GetUserConversationsPage]. *)
Definition clamp_limit (limit : Z) : Z :=
  let limit := if limit <=? 0 then DefaultConversationListLimit else limit in
  if MaxConversationListLimit <? limit then MaxConversationListLimit else limit.

Definition convMaxSeq_of (convWithSeqs : list ConversationWithSeq.t) : gmap string Z :=
  fold_left
    (fun m conv =>
       if 0 <? ConversationWithSeq.MaxSeq conv
       then <[ConversationWithSeq.ConversationId conv := ConversationWithSeq.MaxSeq conv]> m
       else m)
    convWithSeqs ∅.

Definition info_of (lastMsgMap : gmap string Message) (conv : ConversationWithSeq.t)
  : ConversationInfo.t MessageInfo :=
  ConversationInfo.mk
    (ConversationWithSeq.ConversationId conv)
    (ConversationWithSeq.ConversationType conv)
    (ConversationWithSeq.PeerUserId conv)
    (ConversationWithSeq.GroupId conv)
    (ConversationWithSeq.RecvMsgOpt conv)
    (ConversationWithSeq.IsPinned conv)
    (ConversationWithSeq.UnreadCount conv)
    (ConversationWithSeq.MaxSeq conv)
    (ConversationWithSeq.ReadSeq conv)
    (ConversationWithSeq.UpdatedAt conv)
    (ToMessageInfo <$> lastMsgMap !! ConversationWithSeq.ConversationId conv).

Definition buildConversationInfos (db : DB) (userId : string)
  (convWithSeqs : list ConversationWithSeq.t) (withLastMessage : bool)
  : list (ConversationInfo.t MessageInfo) * goerror :=
  let fetched :=
    if withLastMessage
    then BatchGetByConvSeq (msgRepo s) db (convMaxSeq_of convWithSeqs)
    else (∅, None) in
  match fetched with
  | (_, Some _) => ([], Some errcode.ErrInternalServer)
  | (lastMsgMap, None) => (info_of lastMsgMap <$> convWithSeqs, None)
  end.

Definition GetUserConversationsPage (db : DB) (userId : string)
  (withLastMessage : bool) (limit : Z) (cursorUpdatedAt : Z)
  (cursorConversationId : string)
  : option (ConversationListResult MessageInfo) * goerror :=
  let limit := clamp_limit limit in
  match GetUserConversationsWithSeqPage (convRepo s) db userId (limit + 1)
          cursorUpdatedAt cursorConversationId with
  | (_, Some _) => (None, Some errcode.ErrInternalServer)
  | (convWithSeqs, None) =>
      let hasMore := limit <? Z.of_nat (length convWithSeqs) in
      let convWithSeqs :=
        if hasMore then firstn (Z.to_nat limit) convWithSeqs else convWithSeqs in
      match buildConversationInfos db userId convWithSeqs withLastMessage with
      | (_, Some err) => (None, Some err)
      | (list, None) =>
          let nextCursor :=
            if hasMore && (0 <? Z.of_nat (length convWithSeqs)) then
              match last convWithSeqs with
              | Some l =>
                  Some {| cursor_UpdatedAt := ConversationWithSeq.UpdatedAt l;
                          cursor_ConversationId := ConversationWithSeq.ConversationId l |}
              | None => None
              end
            else None in
          (Some {| List := list; HasMore := hasMore; NextCursor := nextCursor |},
           None)
      end
  end.

Definition GetConversation (db : DB) (userId conversationId : string)
  : option (ConversationInfo.t MessageInfo) * goerror :=
  match GetByOwnerAndConvId (convRepo s) db userId conversationId with
  | (_, Some _) => (None, Some errcode.ErrInternalServer)
  | (None, None) => (None, Some errcode.ErrConvNotFound)
  | (Some conv, None) =>
      let seqConv := fst (GetConversationSeqInfo (seqRepo s) db conversationId) in
      let seqUser := fst (GetSeqUser (seqRepo s) db userId conversationId) in
      let maxSeq := match seqConv with Some sc => SeqConversation.MaxSeq sc | None => 0 end in
      let readSeq := match seqUser with Some su => SeqUser.ReadSeq su | None => 0 end in
      let unreadCount := Int64.sub maxSeq readSeq in
      let unreadCount := if unreadCount <? 0 then 0 else unreadCount in
      (Some (ConversationInfo.mk
               (Conversation.ConversationId conv)
               (Conversation.ConversationType conv)
               (Conversation.PeerUserId conv)
               (Conversation.GroupId conv)
               (Conversation.RecvMsgOpt conv)
               (Conversation.IsPinned conv)
               unreadCount maxSeq readSeq
               (Conversation.UpdatedAt conv)
               None),
       None)
  end.

(** The update map [UpdateConversation] builds from the request. *)
Definition updates_of (req : UpdateConversationRequest) : gmap string UpdateValue :=
  let updates : gmap string UpdateValue := ∅ in
  let updates :=
    match req_RecvMsgOpt req with
    | Some v => <["recv_msg_opt" := VInt32 v]> updates
    | None => updates
    end in
  match req_IsPinned req with
  | Some b => <["is_pinned" := VBool b]> updates
  | None => updates
  end.

(** [UpdateConversation] returns the database it leaves behind, its error,
    and the storage calls it made. *)
Definition UpdateConversation (db : DB) (userId conversationId : string)
  (req : UpdateConversationRequest) : DB * goerror * list RepoCall :=
  let updates := updates_of req in
  if Nat.eqb (size updates) 0 then (db, None, [])
  else
    let calls := [CallUpdate userId conversationId updates] in
    match Update (convRepo s) db userId conversationId updates with
    | (db', Some _) => (db', Some errcode.ErrInternalServer, calls)
    | (db', None) => (db', None, calls)
    end.

(** [GetMaxReadSeq] reads [seqConv.MaxSeq] without a nil check. *)
Definition GetMaxReadSeq (db : DB) (userId conversationId : string)
  : Outcome (Z * Z * goerror) :=
  match GetConversationSeqInfo (seqRepo s) db conversationId with
  | (_, Some err) => Returns (0, 0, Some err)
  | (seqConv, None) =>
      let seqUser := fst (GetSeqUser (seqRepo s) db userId conversationId) in
      let readSeq := match seqUser with Some su => SeqUser.ReadSeq su | None => 0 end in
      match seqConv with
      | Some sc => Returns (SeqConversation.MaxSeq sc, readSeq, None)
      | None => Panics
      end
  end.

End WithRepositories.

Arguments ConversationService {_} DB.

End service.

(** *** The conversation handler ([internal/handler]) *)

Module handler.
Import entity repository.

(** What a handler reads from the request: the user id the auth middleware
    stored ([middleware.GetUserId], empty when absent) and the query
    parameters ([c.Query], empty when absent). *)
Record RequestContext := {
  ctx_UserId : string;
  ctx_Query : gmap string string
}.

Definition Query (c : RequestContext) (key : string) : string :=
  default EmptyString (ctx_Query c !! key).

Record GetConversationListRequest := {
  WithLastMessage : option bool;
  Limit : Z;
  CursorUpdatedAt : Z;
  CursorConversationId : string
}.

(** [response.ErrorWithCode] / [response.Error], and [response.Success]. *)
Inductive Response (A : Type) :=
| Failure (e : errcode.Error)
| Success (data : A).
Arguments Failure {A} e.
Arguments Success {A} data.

Definition is_empty (s : string) : bool := String.eqb s EmptyString.

(** The clamp every handler applies to a difference of sequence numbers. *)
Definition unread_count (maxSeq readSeq : Z) : Z :=
  let unreadCount := Int64.sub maxSeq readSeq in
  if unreadCount <? 0 then 0 else unreadCount.

Section WithService.

Context `{Messages} {DB : Type}.
Variable convService : service.ConversationService DB.

(** [bound] is the outcome of [c.BindAndValidate(&req)]: the request, or
    [None] when binding failed. *)
Definition GetConversationList (db : DB) (c : RequestContext)
  (bound : option GetConversationListRequest)
  : Response (option (service.ConversationListResult MessageInfo)) :=
  let userId := ctx_UserId c in
  if is_empty userId then Failure errcode.ErrUnauthorized
  else
    match bound with
    | None => Failure errcode.ErrInvalidParam
    | Some req =>
        let withLastMessage := default false (WithLastMessage req) in
        if (Limit req <? 0) || (service.MaxConversationListLimit <? Limit req)
        then Failure errcode.ErrInvalidParam
        else if (0 <? CursorUpdatedAt req) && is_empty (CursorConversationId req)
        then Failure errcode.ErrInvalidParam
        else if negb (is_empty (CursorConversationId req)) && (CursorUpdatedAt req <=? 0)
        then Failure errcode.ErrInvalidParam
        else
          match service.GetUserConversationsPage convService db userId
                  withLastMessage (Limit req) (CursorUpdatedAt req)
                  (CursorConversationId req) with
          | (_, Some err) => Failure err
          | (convs, None) => Success convs
          end
    end.

Definition GetMaxReadSeq (db : DB) (c : RequestContext)
  : Outcome (Response (gmap string Z)) :=
  let userId := ctx_UserId c in
  if is_empty userId then Returns (Failure errcode.ErrUnauthorized)
  else
    let conversationId := Query c "conversation_id" in
    if is_empty conversationId then Returns (Failure errcode.ErrInvalidParam)
    else
      match service.GetMaxReadSeq convService db userId conversationId with
      | Panics => Panics
      | Returns (_, _, Some err) => Returns (Failure err)
      | Returns (maxSeq, readSeq, None) =>
          let unreadCount := unread_count maxSeq readSeq in
          Returns (Success (<["max_seq" := maxSeq]>
                             (<["read_seq" := readSeq]>
                                {["unread_count" := unreadCount]})))
      end.

Definition GetUnreadCount (db : DB) (c : RequestContext)
  : Outcome (Response (gmap string Z)) :=
  let userId := ctx_UserId c in
  if is_empty userId then Returns (Failure errcode.ErrUnauthorized)
  else
    let conversationId := Query c "conversation_id" in
    if is_empty conversationId then Returns (Failure errcode.ErrInvalidParam)
    else
      let readSeqStr := Query c "read_seq" in
      let readSeq := fst (GoStrings.ParseInt readSeqStr) in
      match service.GetMaxReadSeq convService db userId conversationId with
      | Panics => Panics
      | Returns (_, _, Some err) => Returns (Failure err)
      | Returns (maxSeq, currentReadSeq, None) =>
          (* Use provided read_seq or current read_seq *)
          let readSeq := if readSeq =? 0 then currentReadSeq else readSeq in
          let unreadCount := unread_count maxSeq readSeq in
          Returns (Success {["unread_count" := unreadCount]})
      end.

End WithService.

End handler.

(** *** Configuration ([internal/config]): the fields the middleware reads *)

Module config.

Record InternalAuthConfig := {
  Enabled : bool;
  Secret : string;
  AllowedServices : list string;
  MaxSkewSeconds : Z
}.

Record JWTConfig := { JWT_Secret : string }.

Record ExternalJWTConfig := {
  ExternalJWT_Enabled : bool;
  ExternalJWT_Secret : string;
  DefaultRole : string;
  DefaultPlatformId : Z
}.

Record Config := {
  InternalAuth : InternalAuthConfig;
  JWT : JWTConfig;
  ExternalJWT : ExternalJWTConfig
}.

End config.

(** *** Hash functions ([crypto/sha256], [crypto/hmac], [encoding/hex]) *)

Module crypto.

(** SHA-256 and HMAC-SHA256 are Go's; the code is embedded over any pair of
    functions of their type. *)
Class Hash := {
  sha256_Sum256 : string -> string;
  hmac_sha256 : string -> string -> string   (* key, message *)
}.

Definition hex_digit (n : Z) : ascii :=
  if n <? 10 then ascii_of_N (Z.to_N (48 + n)) else ascii_of_N (Z.to_N (87 + n)).

(** [hex.EncodeToString]: two lower-case hex digits per byte. *)
Fixpoint hex_EncodeToString (bytes : string) : string :=
  match bytes with
  | EmptyString => EmptyString
  | String c rest =>
      let n := GoStrings.byte_val c in
      String (hex_digit (n / 16)) (String (hex_digit (n mod 16)) (hex_EncodeToString rest))
  end.

(** **** SHA-256 (FIPS 180-4) and HMAC (RFC 2104), to run the code on *)

Module Sha256.

Definition w32 (x : Z) : Z := x mod 2 ^ 32.
Definition add32 (x y : Z) : Z := w32 (x + y).
Definition rotr (n x : Z) : Z := Z.lor (Z.shiftr x n) (w32 (Z.shiftl x (32 - n))).
Definition not32 (x : Z) : Z := Z.lxor x (2 ^ 32 - 1).

Definition Ch (x y z : Z) : Z := Z.lxor (Z.land x y) (Z.land (not32 x) z).
Definition Maj (x y z : Z) : Z :=
  Z.lxor (Z.lxor (Z.land x y) (Z.land x z)) (Z.land y z).
Definition Sigma0 (x : Z) : Z := Z.lxor (Z.lxor (rotr 2 x) (rotr 13 x)) (rotr 22 x).
Definition Sigma1 (x : Z) : Z := Z.lxor (Z.lxor (rotr 6 x) (rotr 11 x)) (rotr 25 x).
Definition sigma0 (x : Z) : Z := Z.lxor (Z.lxor (rotr 7 x) (rotr 18 x)) (Z.shiftr x 3).
Definition sigma1 (x : Z) : Z := Z.lxor (Z.lxor (rotr 17 x) (rotr 19 x)) (Z.shiftr x 10).

Definition is_prime (n : Z) : bool :=
  forallb (fun d => negb (n mod Z.of_nat d =? 0)) (List.seq 2 (Z.to_nat n - 2)).

Definition primes : list Z :=
  Eval vm_compute in List.filter is_prime (List.map Z.of_nat (List.seq 2 310)).

(** The integer cube root, one bit at a time. *)
Fixpoint cube_root_bits (bits : nat) (n r : Z) : Z :=
  match bits with
  | O => r
  | S k =>
      let r' := r + 2 ^ Z.of_nat k in
      if r' * r' * r' <=? n then cube_root_bits k n r' else cube_root_bits k n r
  end.

(** The round constants: the first 32 bits of the fractional parts of the
    cube roots of the first 64 primes. *)
Definition K : list Z :=
  Eval vm_compute in List.map (fun p => w32 (cube_root_bits 36 (p * 2 ^ 96) 0)) primes.

(** The initial hash value: the same of the square roots of the first 8. *)
Definition H0 : list Z :=
  Eval vm_compute in List.map (fun p => w32 (Z.sqrt (p * 2 ^ 64))) (firstn 8 primes).

(** The message schedule, most recent word first. *)
Fixpoint schedule (n : nat) (w : list Z) : list Z :=
  match n with
  | O => w
  | S n' =>
      let x :=
        add32 (add32 (sigma1 (nth 1 w 0)) (nth 6 w 0))
              (add32 (sigma0 (nth 14 w 0)) (nth 15 w 0)) in
      schedule n' (x :: w)
  end.

Definition round (st : list Z) (kw : Z * Z) : list Z :=
  match st with
  | [a; b; c; d; e; f; g; h] =>
      let t1 := add32 (add32 (add32 h (Sigma1 e)) (add32 (Ch e f g) (fst kw))) (snd kw) in
      let t2 := add32 (Sigma0 a) (Maj a b c) in
      [add32 t1 t2; a; b; c; add32 d t1; e; f; g]
  | _ => st
  end.

Definition compress (st : list Z) (block : list Z) : list Z :=
  let w := rev (schedule 48 (rev block)) in
  let st' := fold_left round (combine K w) st in
  List.map (fun p => add32 (fst p) (snd p)) (combine st st').

Fixpoint words (fuel : nat) (bytes : list Z) : list Z :=
  match fuel, bytes with
  | S f, b0 :: b1 :: b2 :: b3 :: rest =>
      (((b0 * 256 + b1) * 256 + b2) * 256 + b3) :: words f rest
  | _, _ => []
  end.

Fixpoint blocks (fuel : nat) (ws : list Z) : list (list Z) :=
  match fuel, ws with
  | S f, _ :: _ => firstn 16 ws :: blocks f (skipn 16 ws)
  | _, _ => []
  end.

Definition be_bytes (n : nat) (x : Z) : list Z :=
  List.map (fun i => (x / 256 ^ Z.of_nat i) mod 256) (rev (List.seq 0 n)).

Definition pad (msg : list Z) : list Z :=
  let len := Z.of_nat (length msg) in
  (msg ++ [128] ++ repeat 0 (Z.to_nat ((55 - len) mod 64)) ++ be_bytes 8 (8 * len))%list.

Definition digest (msg : list Z) : list Z :=
  let p := pad msg in
  let ws := words (length p) p in
  let st := fold_left compress (blocks (length ws) ws) H0 in
  flat_map (be_bytes 4) st.

Definition hmac (key msg : list Z) : list Z :=
  let key := if (64 <? Z.of_nat (length key)) then digest key else key in
  let key := (key ++ repeat 0 (64 - length key))%list in
  let ipad := List.map (Z.lxor 54) key in
  let opad := List.map (Z.lxor 92) key in
  digest (opad ++ digest (ipad ++ msg)).

Definition bytes_of_string (s : string) : list Z :=
  List.map GoStrings.byte_val (list_ascii_of_string s).

Definition string_of_bytes (l : list Z) : string :=
  string_of_list_ascii (List.map (fun b => ascii_of_N (Z.to_N b)) l).

End Sha256.

#[export] Instance go_hash : Hash :=
  {| sha256_Sum256 := fun body =>
       Sha256.string_of_bytes (Sha256.digest (Sha256.bytes_of_string body));
     hmac_sha256 := fun key msg =>
       Sha256.string_of_bytes
         (Sha256.hmac (Sha256.bytes_of_string key) (Sha256.bytes_of_string msg)) |}.

End crypto.

(** *** Service-to-service authentication
    ([internal/middleware/internal_auth.go]) *)

Module middleware.
Import config crypto.

Definition InternalServiceNameHeader : string := "X-Service-Name".
Definition InternalTimestampHeader : string := "X-Timestamp".
Definition InternalSignatureHeader : string := "X-Signature".
Definition InternalUserIdHeader : string := "X-User-Id".
Definition InternalPlatformIdHeader : string := "X-Platform-Id".

(** The request as the middleware sees it; [GetHeader] of a header that is
    not there is empty. *)
Record Request := {
  Header : gmap string string;
  Method : string;
  Path : string;
  Body : string
}.

Definition GetHeader (c : Request) (name : string) : string :=
  default EmptyString (Header c !! name).

Definition is_empty (s : string) : bool := String.eqb s EmptyString.

Definition absInt64 (v : Z) : Z :=
  if v <? 0 then Int64.neg v else v.

Fixpoint isServiceAllowed_loop (serviceName : string) (allowed : list string) : bool :=
  match allowed with
  | [] => false
  | s :: rest =>
      if GoStrings.EqualFold (GoStrings.TrimSpace s) serviceName then true
      else isServiceAllowed_loop serviceName rest
  end.

Definition isServiceAllowed (serviceName : string) (allowed : list string) : bool :=
  if Nat.eqb (length allowed) 0 then true
  else isServiceAllowed_loop serviceName allowed.

Section WithHash.

Context `{Hash}.

Definition signInternalRequest (secret serviceName timestamp method path : string)
  (body : string) : string :=
  let bodyHashBytes := sha256_Sum256 body in
  let bodyHash := hex_EncodeToString bodyHashBytes in
  let payload :=
    GoStrings.Join
      [serviceName; timestamp; GoStrings.ToUpper method; path; bodyHash]
      (String (ascii_of_N 10) EmptyString) in
  hex_EncodeToString (hmac_sha256 secret payload).

(** [cfg] is [config.GlobalConfig] ([None] when nil), [now] is
    [time.Now().Unix()]. *)
Definition validateInternalRequest (cfg : option Config) (now : Z) (c : Request)
  : string * goerror :=
  match cfg with
  | None => (EmptyString, Some errcode.ErrForbidden)
  | Some cfg =>
      let ia := InternalAuth cfg in
      if negb (Enabled ia) then (EmptyString, Some errcode.ErrForbidden)
      else if is_empty (GoStrings.TrimSpace (Secret ia))
      then (EmptyString, Some errcode.ErrForbidden)
      else
        let serviceName := GoStrings.TrimSpace (GetHeader c InternalServiceNameHeader) in
        let tsStr := GoStrings.TrimSpace (GetHeader c InternalTimestampHeader) in
        let signature := GoStrings.TrimSpace (GetHeader c InternalSignatureHeader) in
        if is_empty serviceName || is_empty tsStr || is_empty signature
        then (EmptyString, Some errcode.ErrUnauthorized)
        else if negb (isServiceAllowed serviceName (AllowedServices ia))
        then (EmptyString, Some errcode.ErrForbidden)
        else
          match GoStrings.ParseInt tsStr with
          | (_, Some _) => (EmptyString, Some errcode.ErrUnauthorized)
          | (ts, None) =>
              if MaxSkewSeconds ia <? absInt64 (Int64.sub now ts)
              then (EmptyString, Some errcode.ErrUnauthorized)
              else
                let expected :=
                  signInternalRequest (Secret ia) serviceName tsStr
                    (Method c) (Path c) (Body c) in
                if negb (String.eqb (GoStrings.ToLower signature) expected)
                then (EmptyString, Some errcode.ErrUnauthorized)
                else (serviceName, None)
          end
  end.

(** What [InternalAuthAsUser] stores in the request context before it
    calls the next handler. *)
Record ActingUser := {
  acting_ServiceName : string;
  acting_UserId : string;
  acting_PlatformId : Z
}.

(** [InternalAuthAsUser]: the error it aborts with, or the context it
    passes on.  [strconv.Atoi] is [ParseInt] at the width of [int]. *)
Definition InternalAuthAsUser (cfg : option Config) (now : Z) (c : Request)
  : errcode.Error + ActingUser :=
  match validateInternalRequest cfg now c with
  | (_, Some authErr) => inl authErr
  | (serviceName, None) =>
      let userId := GoStrings.TrimSpace (GetHeader c InternalUserIdHeader) in
      if is_empty userId then inl errcode.ErrUnauthorized
      else
        let platformId := 5 in (* Web default *)
        let platformIdStr := GoStrings.TrimSpace (GetHeader c InternalPlatformIdHeader) in
        if negb (is_empty platformIdStr) then
          match GoStrings.ParseInt platformIdStr with
          | (_, Some _) => inl errcode.ErrInvalidParam
          | (pid, None) =>
              if pid <=? 0 then inl errcode.ErrInvalidParam
              else inr {| acting_ServiceName := serviceName;
                          acting_UserId := userId;
                          acting_PlatformId := pid |}
          end
        else inr {| acting_ServiceName := serviceName;
                    acting_UserId := userId;
                    acting_PlatformId := platformId |}
  end.

End WithHash.

(** The id of the Web platform: the value [InternalAuthAsUser] falls back
    to ([platformId := 5 // Web default]) and the [platform_id=5] the
    websocket tests connect with. *)
Definition PlatformIdWeb : Z := 5.

End middleware.

(** *** Tokens ([pkg/jwt]) *)

Module jwt.

(** The JWT library ([golang-jwt]) and the repository's own [ParseToken]
    and [ParseExternalToken] are taken as given.  [ParseWithClaims] is
    handed the function that picks the key from the claims of the token it
    is verifying, and returns the parsed token or an error. *)
Class Lib := {
  RegisteredClaims : Type;
  Issuer : RegisteredClaims -> string
}.

Section WithLib.
Context `{Lib}.

Record Claims := {
  UserId : string;
  PlatformId : Z;
  Claims_RegisteredClaims : RegisteredClaims
}.

Record ExternalClaims := {
  External_UserId : string;
  External_RegisteredClaims : RegisteredClaims
}.

Record Token := {
  Token_Claims : ExternalClaims;
  Valid : bool
}.

Variable ParseToken : string -> string -> option Claims * goerror.
Variable ParseWithClaims :
  string -> (ExternalClaims -> string) -> Token + errcode.Error.
Variable ParseExternalToken :
  string -> string -> string -> Z -> option Claims * goerror.

(** The key function [ParseMultiIssuer] passes to the library. *)
Definition multi_issuer_key (nexoSecret externalSecret : string)
  (claims : ExternalClaims) : string :=
  if String.eqb (Issuer (External_RegisteredClaims claims)) "external-system"
  then externalSecret
  else nexoSecret.

Definition ParseMultiIssuer (tokenString nexoSecret externalSecret : string)
  : option Claims * goerror :=
  match ParseToken tokenString nexoSecret with
  | (claims, None) => (claims, None)
  | (_, Some _) =>
      match ParseWithClaims tokenString (multi_issuer_key nexoSecret externalSecret) with
      | inr err => (None, Some err)
      | inl token =>
          if Valid token then
            let extClaims := Token_Claims token in
            (Some {| UserId := External_UserId extClaims;
                     PlatformId := 1;
                     Claims_RegisteredClaims := External_RegisteredClaims extClaims |},
             None)
          else (None, Some errcode.ErrTokenInvalid)
      end
  end.

(** [middleware.ParseTokenWithFallback] ([internal/middleware/auth.go]). *)
Definition ParseTokenWithFallback (tokenString : string) (cfg : option config.Config)
  : option Claims * goerror :=
  match cfg with
  | None => (None, Some errcode.ErrTokenInvalid)
  | Some cfg =>
      match ParseToken tokenString (config.JWT_Secret (config.JWT cfg)) with
      | (claims, None) => (claims, None)
      | (_, Some err) =>
          if config.ExternalJWT_Enabled (config.ExternalJWT cfg) then
            ParseExternalToken tokenString
              (config.ExternalJWT_Secret (config.ExternalJWT cfg))
              (config.DefaultRole (config.ExternalJWT cfg))
              (config.DefaultPlatformId (config.ExternalJWT cfg))
          else (None, Some err)
      end
  end.

End WithLib.

End jwt.

(** *** The websocket connection wrapper ([internal/gateway])

    [WriteMessage] runs under [writeMu] and the body of [Close] under
    [closeOnce] and [writeMu], so each is one atomic transition of the
    connection; the write loop goroutine takes one [select] case at a
    time.  Deadlines and the ping timer are not modelled: a tick is an
    event that may happen at any time. *)

Module gateway.

Inductive ConnError := ErrConnClosed | ErrWriteChannelFull.

(** The frames the write loop hands to the socket. *)
Inductive Frame :=
| BinaryMessage (data : string)
| CloseMessage
| PingMessage.

Record WebsocketClientConn := mkConn {
  writeChan : list string;       (* buffered frames, oldest first *)
  writeChanClosed : bool;        (* close(c.writeChan) has run *)
  closed : bool;
  closeOnce : bool;              (* closeOnce.Do has run its function *)
  closeChanClosed : bool;        (* close(c.closeChan) has run *)
  loopRunning : bool;            (* writeLoop has not returned *)
  conn_written : list Frame;     (* frames written to the socket, oldest first *)
  conn_closes : nat              (* calls of c.conn.Close() *)
}.

(** [make(chan []byte, 256)] *)
Definition writeChanCap : nat := 256.

(** [NewWebSocketClientConn]: empty channels, the write loop started. *)
Definition NewWebSocketClientConn : WebsocketClientConn :=
  mkConn [] false false false false true [] 0.

Definition enqueue (c : WebsocketClientConn) (data : string) : WebsocketClientConn :=
  mkConn (writeChan c ++ [data]) (writeChanClosed c) (closed c) (closeOnce c)
    (closeChanClosed c) (loopRunning c) (conn_written c) (conn_closes c).

(** A send on a closed channel panics, also inside a [select]. *)
Definition WriteMessage (c : WebsocketClientConn) (data : string)
  : Outcome (WebsocketClientConn * option ConnError) :=
  if closed c then Returns (c, Some ErrConnClosed)
  else if writeChanClosed c then Panics
  else if (length (writeChan c) <? writeChanCap)%nat then Returns (enqueue c data, None)
  else Returns (c, Some ErrWriteChannelFull).

(** Closing a closed channel panics. *)
Definition Close (c : WebsocketClientConn)
  : Outcome (WebsocketClientConn * option ConnError) :=
  if closeOnce c then Returns (c, None)
  else if writeChanClosed c || closeChanClosed c then Panics
  else
    Returns (mkConn (writeChan c) true true true true (loopRunning c)
               (conn_written c) (conn_closes c),
             None).

(** The [select] case the write loop takes next; [wrote] tells whether the
    socket write it makes succeeds. *)
Inductive LoopChoice :=
| RecvWriteChan (wrote : bool)
| Tick (wrote : bool)
| RecvCloseChan.

Definition socket_write (c : WebsocketClientConn) (f : Frame) : WebsocketClientConn :=
  mkConn (writeChan c) (writeChanClosed c) (closed c) (closeOnce c)
    (closeChanClosed c) (loopRunning c) (conn_written c ++ [f]) (conn_closes c).

Definition dequeue (c : WebsocketClientConn) : WebsocketClientConn :=
  mkConn (tail (writeChan c)) (writeChanClosed c) (closed c) (closeOnce c)
    (closeChanClosed c) (loopRunning c) (conn_written c) (conn_closes c).

(** The loop returns: its deferred function closes the socket. *)
Definition writeLoop_return (c : WebsocketClientConn) : WebsocketClientConn :=
  mkConn (writeChan c) (writeChanClosed c) (closed c) (closeOnce c)
    (closeChanClosed c) false (conn_written c) (S (conn_closes c)).

(** One iteration of [writeLoop]; a case that is not ready leaves the loop
    waiting. *)
Definition writeLoop_step (c : WebsocketClientConn) (choice : LoopChoice)
  : WebsocketClientConn :=
  if negb (loopRunning c) then c
  else
    match choice with
    | RecvWriteChan wrote =>
        match writeChan c with
        | message :: _ =>
            if wrote then socket_write (dequeue c) (BinaryMessage message)
            else writeLoop_return (dequeue c)
        | [] =>
            if writeChanClosed c
            then writeLoop_return (if wrote then socket_write c CloseMessage else c)
            else c
        end
    | Tick wrote =>
        if wrote then socket_write c PingMessage else writeLoop_return c
    | RecvCloseChan =>
        if closeChanClosed c then writeLoop_return c else c
    end.

Inductive Event :=
| EvWriteMessage (data : string)
| EvClose
| EvLoop (choice : LoopChoice).

Definition step (c : WebsocketClientConn) (e : Event) : Outcome WebsocketClientConn :=
  match e with
  | EvWriteMessage data =>
      match WriteMessage c data with
      | Returns (c', _) => Returns c'
      | Panics => Panics
      end
  | EvClose =>
      match Close c with
      | Returns (c', _) => Returns c'
      | Panics => Panics
      end
  | EvLoop choice => Returns (writeLoop_step c choice)
  end.

Fixpoint run (c : WebsocketClientConn) (events : list Event)
  : Outcome WebsocketClientConn :=
  match events with
  | [] => Returns c
  | e :: rest =>
      match step c e with
      | Returns c' => run c' rest
      | Panics => Panics
      end
  end.

(** **** The protocol envelope and the opcode dispatch *)





Section Dispatch.

Variable State : Type.





End Dispatch.

End gateway.

(** *** The rest of the middleware, the handlers and the SDK client *)

(** *** More of Go's [strings] *)

Module GoStringsMore.
Import GoStrings.

(** [strings.HasPrefix], [strings.TrimPrefix] *)
Definition HasPrefix (s prefix : string) : bool :=
  match strip_prefix prefix s with Some _ => true | None => false end.

Definition TrimPrefix (s prefix : string) : string :=
  match strip_prefix prefix s with Some rest => rest | None => s end.

(** [strings.ReplaceAll(s, old, "")] for a one-byte [old]: every
    occurrence of the byte is dropped. *)
Fixpoint remove_byte (old : ascii) (s : string) : string :=
  match s with
  | EmptyString => EmptyString
  | String c s' =>
      if Ascii.eqb c old then remove_byte old s' else String c (remove_byte old s')
  end.

(** [s[:n]] for [n <= len(s)] *)
Fixpoint take_bytes (n : nat) (s : string) : string :=
  match n, s with
  | S n', String c s' => String c (take_bytes n' s')
  | _, _ => EmptyString
  end.

(** The first character is not white space (or there is none). *)
Definition starts_nonspace (s : string) : bool :=
  match s with
  | EmptyString => true
  | String c _ => negb (is_space c)
  end.

End GoStringsMore.

(** *** Token extraction and the JWT middleware
    ([internal/middleware/auth.go]) *)

Module auth.
Import GoStrings GoStringsMore middleware.

Definition AuthorizationHeader : string := "Authorization".
Definition XTokenHeader : string := "X-Token".
Definition IgnoreAuthHeader : string := "Ignore-Auth".
Definition BearerPrefix : string := "Bearer ".
Definition UserIdKey : string := "user_id".
Definition PlatformIdKey : string := "platform_id".
Definition InternalServiceNameKey : string := "internal_service_name".

Definition extractToken (c : Request) : string * goerror :=
  let authHeader := TrimSpace (GetHeader c AuthorizationHeader) in
  if negb (is_empty authHeader) then
    if HasPrefix authHeader BearerPrefix then
      let tokenString := TrimSpace (TrimPrefix authHeader BearerPrefix) in
      if is_empty tokenString then (EmptyString, Some errcode.ErrTokenMissing)
      else (tokenString, None)
    else
      (* If Authorization is malformed, still allow X-Token as fallback *)
      let xToken := TrimSpace (GetHeader c XTokenHeader) in
      if negb (is_empty xToken) then (xToken, None)
      else (EmptyString, Some errcode.ErrTokenInvalid)
  else
    let xToken := TrimSpace (GetHeader c XTokenHeader) in
    if is_empty xToken then (EmptyString, Some errcode.ErrTokenMissing)
    else (xToken, None).

(** The values handlers and middleware keep in the request context
    ([c.Set] / [c.Get]): strings and ints. *)
Inductive CtxValue :=
| VString (s : string)
| VInt (n : Z).

(** What a middleware does with a request: abort with an error response,
    or call the next handler with the request context it has prepared. *)
Inductive Flow :=
| Aborted (e : errcode.Error)
| Next (store : gmap string CtxValue).

(** [GetUserId] and [GetPlatformId] assert the type of what they find
    (a value of another type panics); [GetInternalServiceName] checks it. *)
Definition GetUserId (store : gmap string CtxValue) : Outcome string :=
  match store !! UserIdKey with
  | Some (VString s) => Returns s
  | Some (VInt _) => Panics
  | None => Returns EmptyString
  end.

Definition GetPlatformId (store : gmap string CtxValue) : Outcome Z :=
  match store !! PlatformIdKey with
  | Some (VInt n) => Returns n
  | Some (VString _) => Panics
  | None => Returns 0
  end.


(** [isTestEnv]: [infraEnv] is [os.Getenv("INFRA_ENV")], [TEST] the
    constant [config.TEST]. *)
Definition isTestEnv (infraEnv TEST : string) : bool :=
  EqualFold (TrimSpace infraEnv) TEST.

Section WithTokens.

Context `{jwt.Lib}.

(** [parse] is [ParseTokenWithFallback] at the global configuration; the
    claims it returns are read without a nil check. *)
Variable parse : string -> option jwt.Claims * goerror.

Definition JWTAuth (infraEnv TEST : string) (c : Request)
  (store : gmap string CtxValue) : Outcome Flow :=
  if isTestEnv infraEnv TEST && negb (is_empty (GetHeader c IgnoreAuthHeader))
  then Returns (Next store)
  else
    match extractToken c with
    | (_, Some errcode.ErrTokenMissing) => Returns (Aborted errcode.ErrTokenMissing)
    | (_, Some _) => Returns (Aborted errcode.ErrTokenInvalid)
    | (tokenString, None) =>
        match parse tokenString with
        | (_, Some _) => Returns (Aborted errcode.ErrTokenInvalid)
        | (None, None) => Panics
        | (Some claims, None) =>
            Returns (Next (<[PlatformIdKey := VInt (jwt.PlatformId claims)]>
                             (<[UserIdKey := VString (jwt.UserId claims)]> store)))
        end
    end.

End WithTokens.

Section WithHash.

Context `{crypto.Hash}.

(** [InternalAuth] and [InternalAuthAsUser] as middleware: what they put
    in the request context before the next handler runs. *)
Definition InternalAuth (cfg : option config.Config) (now : Z) (c : Request)
  (store : gmap string CtxValue) : Flow :=
  match validateInternalRequest cfg now c with
  | (_, Some authErr) => Aborted authErr
  | (serviceName, None) => Next (<[InternalServiceNameKey := VString serviceName]> store)
  end.

Definition InternalAuthAsUser (cfg : option config.Config) (now : Z) (c : Request)
  (store : gmap string CtxValue) : Flow :=
  match middleware.InternalAuthAsUser cfg now c with
  | inl err => Aborted err
  | inr acting =>
      Next (<[PlatformIdKey := VInt (acting_PlatformId acting)]>
              (<[UserIdKey := VString (acting_UserId acting)]>
                 (<[InternalServiceNameKey := VString (acting_ServiceName acting)]> store)))
  end.

End WithHash.

End auth.

(** *** The trace id of a request ([internal/middleware/trace_id.go]) *)

Module trace_id.
Import GoStrings GoStringsMore middleware auth.

Definition TraceIDHeader : string := "Trace-Id".
Definition XTraceIDHeader : string := "X-Trace-Id".
Definition TraceIDContextKey : string := "trace_id".
Definition operationIDQueryKey : string := "operation_id".

(** A [context.Context] as far as its string-keyed values go: [None] is
    the nil context, [context.WithValue] an insertion that shadows. *)
Definition Context : Type := option (gmap string CtxValue).

Definition GetTraceID (ctx : Context) : string :=
  match ctx with
  | None => EmptyString
  | Some values =>
      match values !! TraceIDContextKey with
      | Some (VString traceID) => TrimSpace traceID
      | _ => EmptyString
      end
  end.


(** [minted] is what [uuid.NewString()] returns when it is asked. *)
Definition resolveTraceID (minted : string) (ctx : Context) (c : Request)
  (query : gmap string string) : string :=
  let traceID := TrimSpace (GetHeader c TraceIDHeader) in
  let traceID :=
    if is_empty traceID then TrimSpace (GetHeader c XTraceIDHeader) else traceID in
  let traceID :=
    if is_empty traceID
    then TrimSpace (default EmptyString (query !! operationIDQueryKey))
    else traceID in
  let traceID := if is_empty traceID then GetTraceID ctx else traceID in
  if is_empty traceID then remove_byte "-" minted else traceID.




End trace_id.

(** *** The request log ([internal/middleware/logger.go]) *)

Module logger.
Import GoStrings GoStringsMore.

Definition maxLogBodyBytes : Z := 2048.

(** [len(body)] *)
Definition len (body : string) : Z := Z.of_nat (String.length body).

Definition formatBody (body : string) (skip : bool) : string :=
  if skip || (len body =? 0) then "-"
  else if len body <=? maxLogBodyBytes then body
  else
    take_bytes (Z.to_nat maxLogBodyBytes) body
    ++ "...(truncated,total=" ++ FormatInt (len body) ++ "B)".

End logger.

(** *** The rest of the conversation service and its handlers *)

Module service_rest.
Import entity repository service.

Section WithRepositories.

Context `{Messages} {DB : Type}.

(** The two storage methods [ConversationRepo] and [SeqRepo] have besides
    those of [repository]. *)
Variable GetUserConversationsWithSeq : DB -> string -> list ConversationWithSeq.t * goerror.
Variable UpdateReadSeq : DB -> string -> string -> Z -> DB * goerror.

Variable s : ConversationService DB.

Definition GetAllUserConversations (db : DB) (userId : string) (withLastMessage : bool)
  : list (ConversationInfo.t MessageInfo) * goerror :=
  match GetUserConversationsWithSeq db userId with
  | (_, Some _) => ([], Some errcode.ErrInternalServer)
  | (convWithSeqs, None) => buildConversationInfos s db userId convWithSeqs withLastMessage
  end.

Definition MarkRead (db : DB) (userId conversationId : string) (readSeq : Z)
  : DB * goerror :=
  match UpdateReadSeq db userId conversationId readSeq with
  | (db', Some _) => (db', Some errcode.ErrInternalServer)
  | (db', None) => (db', None)
  end.

End WithRepositories.

End service_rest.

Module handler_rest.
Import entity repository handler.

Record MarkReadRequest := {
  ConversationId : string;
  ReadSeq : Z
}.

Section WithService.

Context `{Messages} {DB : Type}.
Variable GetUserConversationsWithSeq : DB -> string -> list ConversationWithSeq.t * goerror.
Variable UpdateReadSeq : DB -> string -> string -> Z -> DB * goerror.
Variable convService : service.ConversationService DB.

(** [bound] is the outcome of [c.BindAndValidate(&req)], here the
    [with_last_message] of the request. *)
Definition GetAllConversationList (db : DB) (c : RequestContext)
  (bound : option (option bool))
  : Response (list (ConversationInfo.t MessageInfo)) :=
  let userId := ctx_UserId c in
  if is_empty userId then Failure errcode.ErrUnauthorized
  else
    match bound with
    | None => Failure errcode.ErrInvalidParam
    | Some req =>
        let withLastMessage := default false req in
        match service_rest.GetAllUserConversations GetUserConversationsWithSeq
                convService db userId withLastMessage with
        | (_, Some err) => Failure err
        | (convs, None) => Success convs
        end
    end.

Definition GetConversation (db : DB) (c : RequestContext)
  : Response (option (ConversationInfo.t MessageInfo)) :=
  let userId := ctx_UserId c in
  if is_empty userId then Failure errcode.ErrUnauthorized
  else
    let conversationId := Query c "conversation_id" in
    if is_empty conversationId then Failure errcode.ErrInvalidParam
    else
      match service.GetConversation convService db userId conversationId with
      | (_, Some err) => Failure err
      | (conv, None) => Success conv
      end.

(** The handlers that write return the database they leave behind. *)
Definition UpdateConversation (db : DB) (c : RequestContext)
  (bound : option service.UpdateConversationRequest) : DB * Response unit :=
  let userId := ctx_UserId c in
  if is_empty userId then (db, Failure errcode.ErrUnauthorized)
  else
    let conversationId := Query c "conversation_id" in
    if is_empty conversationId then (db, Failure errcode.ErrInvalidParam)
    else
      match bound with
      | None => (db, Failure errcode.ErrInvalidParam)
      | Some req =>
          match service.UpdateConversation convService db userId conversationId req with
          | (db', Some err, _) => (db', Failure err)
          | (db', None, _) => (db', Success tt)
          end
      end.

Definition MarkRead (db : DB) (c : RequestContext) (bound : option MarkReadRequest)
  : DB * Response unit :=
  let userId := ctx_UserId c in
  if is_empty userId then (db, Failure errcode.ErrUnauthorized)
  else
    match bound with
    | None => (db, Failure errcode.ErrInvalidParam)
    | Some req =>
        match service_rest.MarkRead UpdateReadSeq db userId
                (ConversationId req) (ReadSeq req) with
        | (db', Some err) => (db', Failure err)
        | (db', None) => (db', Success tt)
        end
    end.

End WithService.

End handler_rest.

(** *** The SDK client ([sdk]): the headers it sends *)

Module client.
Import GoStrings GoStringsMore crypto.

Record internalAuthConfig := {
  serviceName : string;
  secret : string
}.

Record actAsUserConfig := {
  userId : string;
  platformId : Z
}.

Record requestOptions := {
  actAsUser : option actAsUserConfig
}.

(** The client without its base URL and its HTTP client. *)
Record Client := {
  token : string;
  ignoreAuth : bool;
  internal : option internalAuthConfig
}.

Definition RequestOption : Type := requestOptions -> requestOptions.
Definition ClientOption : Type := Client -> Client.

Definition is_empty (s : string) : bool := String.eqb s EmptyString.

Definition WithToken (token : string) : ClientOption :=
  fun c => {| token := token; ignoreAuth := ignoreAuth c; internal := internal c |}.

Definition WithIgnoreAuthHeader (enabled : bool) : ClientOption :=
  fun c => {| token := client.token c; ignoreAuth := enabled; internal := internal c |}.

Definition WithInternalAuth (serviceName secret : string) : ClientOption :=
  fun c =>
    let serviceName := TrimSpace serviceName in
    let secret := TrimSpace secret in
    if is_empty serviceName || is_empty secret
    then {| token := token c; ignoreAuth := ignoreAuth c; internal := None |}
    else {| token := token c; ignoreAuth := ignoreAuth c;
            internal := Some {| serviceName := serviceName; secret := secret |} |}.

Section WithPlatform.

(** The SDK's constant [PlatformIdWeb]. *)
Variable PlatformIdWeb : Z.


End WithPlatform.

(** [NewClient]: the options applied in order to a client without
    credentials; [NewInternalClient] puts [WithInternalAuth] last. *)
Definition NewClient (opts : list ClientOption) : Client :=
  fold_left (fun c opt => opt c) opts
    {| token := EmptyString; ignoreAuth := false; internal := None |}.

Definition NewInternalClient (serviceName secret : string) (opts : list ClientOption)
  : Client :=
  NewClient (opts ++ [WithInternalAuth serviceName secret])%list.

(** A nil option is skipped. *)
Definition buildRequestOptions (opts : list (option RequestOption)) : requestOptions :=
  fold_left (fun ro opt => match opt with Some f => f ro | None => ro end) opts
    {| actAsUser := None |}.

Section WithHash.

Context `{Hash}.

Definition signInternalRequest (secret serviceName timestamp method path : string)
  (body : string) : string :=
  let bodyHashBytes := sha256_Sum256 body in
  let bodyHash := hex_EncodeToString bodyHashBytes in
  let payload :=
    Join [serviceName; timestamp; ToUpper method; path; bodyHash]
      (String (ascii_of_N 10) EmptyString) in
  hex_EncodeToString (hmac_sha256 secret payload).

(** [applyAuthHeaders] on the header of the request; [now] is
    [time.Now().Unix()]. *)
Definition applyAuthHeaders (c : Client) (now : Z) (header : gmap string string)
  (method path body : string) (reqOpts : option requestOptions) : gmap string string :=
  let header :=
    if negb (is_empty (token c))
    then <["X-Token" := token c]> (<["Authorization" := "Bearer " ++ token c]> header)
    else header in
  let header := if ignoreAuth c then <["Ignore-Auth" := "1"]> header else header in
  let header :=
    match internal c with
    | Some ia =>
        let ts := FormatInt now in
        let signature := signInternalRequest (secret ia) (serviceName ia) ts method path body in
        <["X-Signature" := signature]>
          (<["X-Timestamp" := ts]> (<["X-Service-Name" := serviceName ia]> header))
    | None => header
    end in
  match reqOpts with
  | Some {| actAsUser := Some user |} =>
      <["X-Platform-Id" := FormatInt (platformId user)]>
        (<["X-User-Id" := userId user]> header)
  | _ => header
  end.

(** The request [request] (with a JSON body, the empty string for none)
    and [get] (with no body) hand to the HTTP client, as it reaches the
    server.  The client signs the [path] it was called with; [uriPath] is
    the path of the URI [baseURL + path], which is what the server's
    [c.Path()] returns: [path] itself when the base URL has no path and
    [path] no query string. *)
Definition request (c : Client) (now : Z) (method path jsonBody : string)
  (opts : list (option RequestOption)) (uriPath : string) : middleware.Request :=
  {| middleware.Header :=
       applyAuthHeaders c now {["Content-Type" := "application/json"]}
         method path jsonBody (Some (buildRequestOptions opts));
     middleware.Method := method;
     middleware.Path := uriPath;
     middleware.Body := jsonBody |}.


End WithHash.

(** [GetUnreadCount]: the query parameters of the request. *)
Definition GetUnreadCount (conversationId : string) (readSeq : Z)
  : gmap string string :=
  let params : gmap string string := {["conversation_id" := conversationId]} in
  if 0 <? readSeq then <["read_seq" := FormatInt readSeq]> params else params.

End client.

(** ** Part II: properties *)

(** *** Arithmetic on [int64] *)

Module Int64Facts.
Import Int64.


Lemma wrap_range (z : Z) : fits (wrap z).
Proof.
  unfold fits, wrap, min_int, max_int.
  pose proof (Z.mod_pos_bound (z + 2 ^ 63) (2 ^ 64) ltac:(lia)). lia.
Qed.

Lemma fitsb_fits (z : Z) : fitsb z = true <-> fits z.
Proof. unfold fitsb, fits. rewrite andb_true_iff, !Z.leb_le. tauto. Qed.

(** Sequence numbers are non-negative, and the difference of two
    non-negative [int64]s never wraps. *)
Lemma sub_nonneg_fits (a b : Z) :
  fits a -> fits b -> 0 <= a -> 0 <= b -> fits (a - b).
Proof. unfold fits, min_int, max_int. lia. Qed.



End Int64Facts.

(** A property of the numbers below [k], checked by running it on each. *)
Lemma forall_below (P : Z -> bool) (k : nat) :
  forallb P (List.map Z.of_nat (List.seq 0 k)) = true ->
  forall n, 0 <= n < Z.of_nat k -> P n = true.
Proof.
  intros Hall n Hn. rewrite forallb_forall in Hall. apply Hall.
  apply in_map_iff. exists (Z.to_nat n). split; [lia |]. apply in_seq. lia.
Qed.

(** Bounds goals about [int64]s, by linear arithmetic. *)
Ltac int64_unfold := unfold Int64.fits, Int64.min_int, Int64.max_int in *.

(** *** C1: the unread count *)

Module UnreadCount.
Import entity repository service handler.



(** The unread count a handler answers with, if it answers with one. *)
Definition answered_unread (r : Outcome (Response (gmap string Z))) : option Z :=
  match r with
  | Returns (Success data) => data !! "unread_count"
  | _ => None
  end.

Section Stored.

Context `{Messages} {DB : Type}.
Variable s : ConversationService DB.
Variable db : DB.

(** [max_seq] of a conversation and [read_seq] of a user in it, as the
    sequence repository holds them; a missing row counts as 0. *)
Definition stored_max_seq (conversationId : string) : Z :=
  match fst (GetConversationSeqInfo (seqRepo s) db conversationId) with
  | Some sc => SeqConversation.MaxSeq sc
  | None => 0
  end.

Definition stored_read_seq (userId conversationId : string) : Z :=
  match fst (GetSeqUser (seqRepo s) db userId conversationId) with
  | Some su => SeqUser.ReadSeq su
  | None => 0
  end.



Lemma service_GetMaxReadSeq_returns (userId conversationId : string)
    (sc : SeqConversation.t) :
  GetConversationSeqInfo (seqRepo s) db conversationId = (Some sc, None) ->
  service.GetMaxReadSeq s db userId conversationId =
    Returns (stored_max_seq conversationId, stored_read_seq userId conversationId, None).
Proof.
  intros Hsc. unfold service.GetMaxReadSeq, stored_max_seq, stored_read_seq.
  rewrite Hsc. reflexivity.
Qed.

Lemma nonempty_is_empty (x : string) : x <> EmptyString -> is_empty x = false.
Proof. intros Hx. unfold is_empty. apply String.eqb_neq. exact Hx. Qed.



End Stored.

End UnreadCount.

(** *** An in-memory storage layer, to run the code on *)

Module Fixtures.
Import entity repository service handler.

#[export] Instance text_messages : Messages :=
  {| Message := string; MessageInfo := string; ToMessageInfo := fun m => m |}.

Record MemDB := {
  mem_rows : list ConversationWithSeq.t;       (* newest first *)
  mem_max_seq : gmap string Z;                 (* per conversation *)
  mem_read_seq : gmap (string * string) Z;     (* per user and conversation *)
  mem_settings : gmap (string * string) (gmap string UpdateValue);
  mem_last : gmap string string
}.

Definition row_of (db : MemDB) (conversationId : string)
  : option ConversationWithSeq.t :=
  head (filter (fun r => ConversationWithSeq.ConversationId r = conversationId)
          (mem_rows db)).

Definition conversation_of (r : ConversationWithSeq.t) : Conversation.t :=
  Conversation.mk
    (ConversationWithSeq.ConversationId r) (ConversationWithSeq.ConversationType r)
    (ConversationWithSeq.PeerUserId r) (ConversationWithSeq.GroupId r)
    (ConversationWithSeq.RecvMsgOpt r) (ConversationWithSeq.IsPinned r)
    (ConversationWithSeq.UpdatedAt r).

(** The cursor predicate of the list query: rows strictly after the cursor
    in [(updated_at DESC, conversation_id DESC)] order; no cursor, every row. *)
Definition after_cursor (cursorUpdatedAt : Z) (cursorConversationId : string)
  (r : ConversationWithSeq.t) : bool :=
  if (cursorUpdatedAt =? 0) && String.eqb cursorConversationId EmptyString then true
  else
    (ConversationWithSeq.UpdatedAt r <? cursorUpdatedAt)
    || ((ConversationWithSeq.UpdatedAt r =? cursorUpdatedAt)
        && String.ltb (ConversationWithSeq.ConversationId r) cursorConversationId).

Definition mem_convRepo : ConversationRepo MemDB :=
  {| GetByOwnerAndConvId := fun db _ conversationId =>
       (conversation_of <$> row_of db conversationId, None);
     GetUserConversationsWithSeqPage := fun db _ n cursorUpdatedAt cursorConversationId =>
       (firstn (Z.to_nat n)
          (List.filter (after_cursor cursorUpdatedAt cursorConversationId) (mem_rows db)),
        None);
     Update := fun db userId conversationId updates =>
       ({| mem_rows := mem_rows db;
           mem_max_seq := mem_max_seq db;
           mem_read_seq := mem_read_seq db;
           mem_settings :=
             <[(userId, conversationId) :=
                 updates ∪ default ∅ (mem_settings db !! (userId, conversationId))]>
               (mem_settings db);
           mem_last := mem_last db |},
        None) |}.

Definition mem_seqRepo : SeqRepo MemDB :=
  {| GetConversationSeqInfo := fun db conversationId =>
       (SeqConversation.mk <$> mem_max_seq db !! conversationId, None);
     GetSeqUser := fun db userId conversationId =>
       (SeqUser.mk <$> mem_read_seq db !! (userId, conversationId), None) |}.

Definition mem_msgRepo : MessageRepo MemDB :=
  {| BatchGetByConvSeq := fun db _ => (mem_last db, None) |}.

Definition mem_service : ConversationService MemDB :=
  {| convRepo := mem_convRepo; msgRepo := mem_msgRepo; seqRepo := mem_seqRepo |}.

Definition row (conversationId : string) (updatedAt maxSeq readSeq : Z)
  : ConversationWithSeq.t :=
  ConversationWithSeq.mk conversationId 1 "bob" EmptyString 0 false
    (Z.max 0 (maxSeq - readSeq)) maxSeq readSeq updatedAt.

(** Alice has three conversations; in ["c_a"] ten messages were sent and
    she has read five. *)
Definition alice_db : MemDB :=
  {| mem_rows := [row "c_a" 300 10 5; row "c_b" 200 4 4; row "c_c" 100 1 0];
     mem_max_seq := {["c_a" := 10; "c_b" := 4; "c_c" := 1]};
     mem_read_seq := {[("alice", "c_a") := 5; ("alice", "c_b") := 4]};
     mem_settings := ∅;
     mem_last := {["c_a" := "hello"]} |}.

Definition request (userId : string) (query : list (string * string)) : RequestContext :=
  {| ctx_UserId := userId; ctx_Query := list_to_map query |}.

End Fixtures.

Module UnreadCountClaim.
Import entity repository service handler Fixtures UnreadCount.


Definition ask_c_a (read_seq : list (string * string)) : RequestContext :=
  request "alice" (("conversation_id", "c_a") :: read_seq).



(** Why the difference has to be an [int64]: a [read_seq] parameter of
    [-2^63] makes [max_seq - read_seq] wrap to a negative number, and the
    answer is 0. *)
Example GetUnreadCount_wraps :
  answered_unread
    (handler.GetUnreadCount mem_service alice_db
       (ask_c_a [("read_seq", "-9223372036854775808")])) = Some 0.
Proof. reflexivity. Qed.

End UnreadCountClaim.

(** *** C2: the page of the conversation list *)

Module ListPage.
Import entity repository service handler.

Lemma clamp_limit_default (limit : Z) :
  limit <= 0 -> clamp_limit limit = DefaultConversationListLimit.
Proof.
  intros Hl. unfold clamp_limit.
  destruct (Z.leb_spec limit 0); [reflexivity | lia].
Qed.

Lemma clamp_limit_max (limit : Z) :
  MaxConversationListLimit < limit -> clamp_limit limit = MaxConversationListLimit.
Proof.
  unfold clamp_limit, MaxConversationListLimit. intros Hl.
  destruct (Z.leb_spec limit 0); [lia |].
  destruct (Z.ltb_spec 100 limit); [reflexivity | lia].
Qed.

Lemma clamp_limit_id (limit : Z) :
  1 <= limit <= MaxConversationListLimit -> clamp_limit limit = limit.
Proof.
  unfold clamp_limit, MaxConversationListLimit. intros Hl.
  destruct (Z.leb_spec limit 0); [lia |].
  destruct (Z.ltb_spec 100 limit); [lia | reflexivity].
Qed.

Lemma clamp_limit_range (limit : Z) :
  1 <= clamp_limit limit <= MaxConversationListLimit.
Proof.
  unfold clamp_limit, MaxConversationListLimit, DefaultConversationListLimit.
  destruct (Z.leb_spec limit 0); [cbn; lia |].
  destruct (Z.ltb_spec 100 limit); lia.
Qed.

(** The cursor that names a row of the answer. *)
Definition cursor_of {MessageInfo : Type} (info : ConversationInfo.t MessageInfo)
  : ConversationListCursor :=
  {| cursor_UpdatedAt := ConversationInfo.UpdatedAt info;
     cursor_ConversationId := ConversationInfo.ConversationId info |}.

Section Page.

Context `{Messages} {DB : Type}.
Variable s : ConversationService DB.
Variable db : DB.

(** The rows the service asks the storage layer for: one more than the
    clamped limit. *)
Definition fetched (userId : string) (limit cursorUpdatedAt : Z)
  (cursorConversationId : string) : list ConversationWithSeq.t * goerror :=
  GetUserConversationsWithSeqPage (convRepo s) db userId (clamp_limit limit + 1)
    cursorUpdatedAt cursorConversationId.

(** The last messages are not asked for, or the batched read of them
    succeeds. *)
Definition last_messages_ok (withLastMessage : bool)
  (rows : list ConversationWithSeq.t) : Prop :=
  withLastMessage = true ->
  snd (BatchGetByConvSeq (msgRepo s) db (convMaxSeq_of rows)) = None.

Lemma buildConversationInfos_ok (userId : string) (withLastMessage : bool)
    (rows : list ConversationWithSeq.t) :
  last_messages_ok withLastMessage rows ->
  exists lastMsgMap,
    buildConversationInfos s db userId rows withLastMessage
    = (info_of lastMsgMap <$> rows, None).
Proof.
  intros Hok. unfold buildConversationInfos.
  destruct withLastMessage.
  - specialize (Hok eq_refl).
    destruct (BatchGetByConvSeq (msgRepo s) db (convMaxSeq_of rows)) as [m e].
    cbn in Hok. subst e. exists m. reflexivity.
  - exists ∅. reflexivity.
Qed.

Lemma GetUserConversationsPage_rows (userId : string) (withLastMessage : bool)
    (limit cursorUpdatedAt : Z) (cursorConversationId : string)
    (rows : list ConversationWithSeq.t) :
  fetched userId limit cursorUpdatedAt cursorConversationId = (rows, None) ->
  last_messages_ok withLastMessage (take (Z.to_nat (clamp_limit limit)) rows) ->
  exists res,
    GetUserConversationsPage s db userId withLastMessage limit
      cursorUpdatedAt cursorConversationId = (Some res, None) /\
    length (List res) = Nat.min (Z.to_nat (clamp_limit limit)) (length rows) /\
    ConversationInfo.ConversationId <$> List res
      = ConversationWithSeq.ConversationId <$> take (Z.to_nat (clamp_limit limit)) rows /\
    HasMore res = (clamp_limit limit <? Z.of_nat (length rows)) /\
    NextCursor res = (if HasMore res then cursor_of <$> last (List res) else None) /\
    (HasMore res = true <-> is_Some (NextCursor res)).
Proof.
  intros Hrows Hok. unfold fetched in Hrows.
  unfold GetUserConversationsPage. rewrite Hrows.
  pose proof (clamp_limit_range limit) as Hr.
  set (eff := clamp_limit limit) in *.
  set (kept := if eff <? Z.of_nat (length rows)
               then firstn (Z.to_nat eff) rows else rows).
  assert (Hkept : kept = take (Z.to_nat eff) rows).
  { subst kept. destruct (Z.ltb_spec eff (Z.of_nat (length rows))); [reflexivity |].
    symmetry. apply take_ge. lia. }
  rewrite Hkept.
  destruct (buildConversationInfos_ok userId withLastMessage _ Hok) as [m Hm].
  rewrite Hm. eexists. split; [reflexivity |]. cbn [List HasMore NextCursor].
  assert (Hlen : length (take (Z.to_nat eff) rows)
                 = Nat.min (Z.to_nat eff) (length rows)) by apply length_take.
  split; [rewrite length_fmap; exact Hlen |].
  split; [rewrite <- list_fmap_compose; reflexivity |].
  split; [reflexivity |].
  destruct (Z.ltb_spec eff (Z.of_nat (length rows))) as [Hmore | Hno]; cbn.
  - assert (Hpos : (0 <? Z.of_nat (length (take (Z.to_nat eff) rows))) = true).
    { apply Z.ltb_lt. rewrite Hlen. lia. }
    rewrite Hpos. rewrite fmap_last.
    destruct (last (take (Z.to_nat eff) rows)) as [l |] eqn:Hlast.
    + cbn. split; [reflexivity |]. split; [eauto | reflexivity].
    + apply last_None in Hlast. rewrite Hlast in Hlen. cbn in Hlen. lia.
  - split; [reflexivity |]. split; [discriminate | intros [x Hx]; discriminate].
Qed.

(** The storage layer honours the row limit it is given: of the [all]
    rows after the cursor it returns the first [n]. *)
Definition limit_honoured (userId : string) (cursorUpdatedAt : Z)
  (cursorConversationId : string) (all : list ConversationWithSeq.t) : Prop :=
  forall n, 0 <= n ->
    GetUserConversationsWithSeqPage (convRepo s) db userId n
      cursorUpdatedAt cursorConversationId = (take (Z.to_nat n) all, None).

Lemma GetUserConversationsPage_available (userId : string) (withLastMessage : bool)
    (limit cursorUpdatedAt : Z) (cursorConversationId : string)
    (all : list ConversationWithSeq.t) :
  limit_honoured userId cursorUpdatedAt cursorConversationId all ->
  last_messages_ok withLastMessage (take (Z.to_nat (clamp_limit limit)) all) ->
  exists res,
    GetUserConversationsPage s db userId withLastMessage limit
      cursorUpdatedAt cursorConversationId = (Some res, None) /\
    length (List res) = Nat.min (Z.to_nat (clamp_limit limit)) (length all) /\
    ConversationInfo.ConversationId <$> List res
      = ConversationWithSeq.ConversationId <$> take (Z.to_nat (clamp_limit limit)) all /\
    HasMore res = (clamp_limit limit <? Z.of_nat (length all)).
Proof.
  intros Hrepo Hok.
  pose proof (clamp_limit_range limit) as Hr.
  set (eff := clamp_limit limit) in *.
  assert (Htake : take (Z.to_nat eff) (take (Z.to_nat (eff + 1)) all)
                  = take (Z.to_nat eff) all).
  { rewrite take_take. f_equal. lia. }
  destruct (GetUserConversationsPage_rows userId withLastMessage limit cursorUpdatedAt
              cursorConversationId (take (Z.to_nat (eff + 1)) all))
    as (res & Hres & Hlen & Hids & Hmore & _).
  - unfold fetched. apply Hrepo. lia.
  - fold eff. rewrite Htake. exact Hok.
  - fold eff in Hlen, Hids, Hmore. rewrite Htake in Hids.
    rewrite length_take in Hlen, Hmore.
    exists res. split; [exact Hres |]. split; [lia |]. split; [exact Hids |].
    rewrite Hmore.
    destruct (Z.ltb_spec eff (Z.of_nat (length all)));
      destruct (Z.ltb_spec eff (Z.of_nat (Nat.min (Z.to_nat (eff + 1)) (length all))));
      try reflexivity; lia.
Qed.

Lemma GetConversationList_rejects (c : RequestContext) (req : GetConversationListRequest) :
  ctx_UserId c <> EmptyString ->
  Limit req < 0 \/ MaxConversationListLimit < Limit req ->
  GetConversationList s db c (Some req) = Failure errcode.ErrInvalidParam.
Proof.
  intros Hu Hl. unfold GetConversationList.
  rewrite (UnreadCount.nonempty_is_empty _ Hu).
  assert (Hb : (Limit req <? 0) || (MaxConversationListLimit <? Limit req) = true).
  { apply orb_true_iff. rewrite !Z.ltb_lt. exact Hl. }
  rewrite Hb. reflexivity.
Qed.

(** A cursor is both of its parts or neither. *)
Definition cursor_ok (req : GetConversationListRequest) : Prop :=
  (0 < CursorUpdatedAt req <-> CursorConversationId req <> EmptyString).

Lemma GetConversationList_passes (c : RequestContext) (req : GetConversationListRequest) :
  ctx_UserId c <> EmptyString ->
  0 <= Limit req <= MaxConversationListLimit ->
  cursor_ok req ->
  GetConversationList s db c (Some req) =
    match GetUserConversationsPage s db (ctx_UserId c)
            (default false (WithLastMessage req)) (Limit req)
            (CursorUpdatedAt req) (CursorConversationId req) with
    | (_, Some err) => Failure err
    | (convs, None) => Success convs
    end.
Proof.
  intros Hu Hl Hc. unfold GetConversationList.
  rewrite (UnreadCount.nonempty_is_empty _ Hu).
  assert (Hb : (Limit req <? 0) || (MaxConversationListLimit <? Limit req) = false).
  { apply orb_false_iff. rewrite !Z.ltb_ge. lia. }
  rewrite Hb. unfold cursor_ok in Hc.
  destruct (is_empty (CursorConversationId req)) eqn:He; unfold is_empty in He.
  - apply String.eqb_eq in He.
    destruct (Z.ltb_spec 0 (CursorUpdatedAt req)) as [Hpos | Hnp].
    + apply Hc in Hpos. contradiction.
    + reflexivity.
  - apply String.eqb_neq in He. rewrite andb_false_r.
    apply Hc in He.
    destruct (Z.leb_spec (CursorUpdatedAt req) 0); [lia | reflexivity].
Qed.

End Page.

End ListPage.

Module ListPageClaim.
Import entity repository service handler Fixtures ListPage.

(** C2, as amended.  The service [GetUserConversationsPage] clamps the
    limit to [1, 100] with default 20 (a non-positive limit becomes 20, a
    limit above 100 becomes 100) and does not fail for an out-of-range
    limit; it fetches limit+1 rows, returns the first min(limit,
    available) of them (of the rows fetched and, when the storage layer
    honours the row limit, of the rows there are), and sets [next_cursor]
    to the last returned row's (updated_at, conversation_id) exactly when
    [has_more] is true.  The
    HTTP handler [GetConversationList] in front of it rejects a limit
    below 0 or above 100 with InvalidParam, and hands every other request
    with a well-formed cursor to the service unchanged. *)
Theorem C2_list_page `{Messages} {DB : Type}
    (s : ConversationService DB) (db : DB) :
  (forall limit,
     1 <= clamp_limit limit <= 100 /\
     (limit <= 0 -> clamp_limit limit = 20) /\
     (100 < limit -> clamp_limit limit = 100) /\
     (1 <= limit <= 100 -> clamp_limit limit = limit)) /\
  (forall userId withLastMessage limit cursorUpdatedAt cursorConversationId rows,
     GetUserConversationsWithSeqPage (convRepo s) db userId (clamp_limit limit + 1)
       cursorUpdatedAt cursorConversationId = (rows, None) ->
     last_messages_ok s db withLastMessage (take (Z.to_nat (clamp_limit limit)) rows) ->
     exists res,
       GetUserConversationsPage s db userId withLastMessage limit
         cursorUpdatedAt cursorConversationId = (Some res, None) /\
       length (List res) = Nat.min (Z.to_nat (clamp_limit limit)) (length rows) /\
       ConversationInfo.ConversationId <$> List res
         = ConversationWithSeq.ConversationId <$> take (Z.to_nat (clamp_limit limit)) rows /\
       HasMore res = (clamp_limit limit <? Z.of_nat (length rows)) /\
       NextCursor res = (if HasMore res then cursor_of <$> last (List res) else None) /\
       (HasMore res = true <-> is_Some (NextCursor res))) /\
  (forall userId withLastMessage limit cursorUpdatedAt cursorConversationId all,
     limit_honoured s db userId cursorUpdatedAt cursorConversationId all ->
     last_messages_ok s db withLastMessage (take (Z.to_nat (clamp_limit limit)) all) ->
     exists res,
       GetUserConversationsPage s db userId withLastMessage limit
         cursorUpdatedAt cursorConversationId = (Some res, None) /\
       length (List res) = Nat.min (Z.to_nat (clamp_limit limit)) (length all) /\
       ConversationInfo.ConversationId <$> List res
         = ConversationWithSeq.ConversationId <$> take (Z.to_nat (clamp_limit limit)) all /\
       HasMore res = (clamp_limit limit <? Z.of_nat (length all))) /\
  (forall c req,
     ctx_UserId c <> EmptyString ->
     Limit req < 0 \/ 100 < Limit req ->
     GetConversationList s db c (Some req) = Failure errcode.ErrInvalidParam) /\
  (forall c req,
     ctx_UserId c <> EmptyString ->
     0 <= Limit req <= 100 ->
     cursor_ok req ->
     GetConversationList s db c (Some req) =
       match GetUserConversationsPage s db (ctx_UserId c)
               (default false (WithLastMessage req)) (Limit req)
               (CursorUpdatedAt req) (CursorConversationId req) with
       | (_, Some err) => Failure err
       | (convs, None) => Success convs
       end).
Proof.
  split; [| split; [| split; [| split]]].
  - intros limit. split; [apply clamp_limit_range |].
    split; [apply clamp_limit_default |].
    split; [apply clamp_limit_max | apply clamp_limit_id].
  - intros userId withLastMessage limit cu cc rows.
    apply GetUserConversationsPage_rows.
  - intros userId withLastMessage limit cu cc all.
    apply GetUserConversationsPage_available.
  - intros c req. apply GetConversationList_rejects.
  - intros c req. apply GetConversationList_passes.
Qed.

Definition list_request (limit : Z) : GetConversationListRequest :=
  {| WithLastMessage := Some true; Limit := limit;
     CursorUpdatedAt := 0; CursorConversationId := EmptyString |}.

(** Alice's three conversations, two at a time: two rows, more to come, a
    cursor; asked for with limit -3 at the service: all three (the limit
    is 20), no cursor; asked for with limit -1 at the handler:
    InvalidParam; with limit 0: what the service answers. *)
Lemma C2_list_page_witness :
  (exists res,
     GetUserConversationsPage mem_service alice_db "alice" true 2 0 EmptyString
       = (Some res, None) /\
     length (List res) = 2%nat /\ HasMore res = true /\ is_Some (NextCursor res)) /\
  (exists res,
     GetUserConversationsPage mem_service alice_db "alice" true (-3) 0 EmptyString
       = (Some res, None) /\
     length (List res) = 3%nat /\ HasMore res = false /\ NextCursor res = None) /\
  GetConversationList mem_service alice_db (request "alice" []) (Some (list_request (-1)))
    = Failure errcode.ErrInvalidParam /\
  GetConversationList mem_service alice_db (request "alice" []) (Some (list_request 0))
    = match GetUserConversationsPage mem_service alice_db "alice" true 0 0 EmptyString with
      | (_, Some err) => Failure err
      | (convs, None) => Success convs
      end.
Proof.
  destruct (C2_list_page mem_service alice_db) as (_ & Hsvc & _ & Hrej & Hpass).
  split; [| split; [| split]].
  - destruct (Hsvc "alice" true 2 0 EmptyString _ eq_refl (fun _ => eq_refl))
      as (res & Hres & Hlen & _ & Hmore & _ & Hiff).
    exists res. split; [exact Hres |].
    split; [rewrite Hlen; reflexivity |].
    split; [rewrite Hmore; reflexivity |].
    apply Hiff. rewrite Hmore. reflexivity.
  - destruct (Hsvc "alice" true (-3) 0 EmptyString _ eq_refl (fun _ => eq_refl))
      as (res & Hres & Hlen & _ & Hmore & Hcur & _).
    exists res. split; [exact Hres |].
    split; [rewrite Hlen; reflexivity |].
    assert (Hfalse : HasMore res = false) by (rewrite Hmore; reflexivity).
    split; [exact Hfalse |]. rewrite Hcur, Hfalse. reflexivity.
  - apply Hrej; [discriminate |]. left. reflexivity.
  - apply (Hpass (request "alice" []) (list_request 0)).
    + discriminate.
    + split; discriminate.
    + split; [intros Hlt; discriminate Hlt | intros Hne; contradiction Hne; reflexivity].
Defined.

(** C2 as stated fails at the handler: a list request with limit 101 is
    not served with 100 rows at most, it fails with InvalidParam (and so
    does one with limit -1), although the service would have answered. *)
Lemma C2_counterexample :
  GetConversationList mem_service alice_db (request "alice" []) (Some (list_request 101))
    = Failure errcode.ErrInvalidParam /\
  GetConversationList mem_service alice_db (request "alice" []) (Some (list_request (-1)))
    = Failure errcode.ErrInvalidParam /\
  (exists res,
     GetUserConversationsPage mem_service alice_db "alice" true 101 0 EmptyString
       = (Some res, None) /\ length (List res) = 3%nat).
Proof.
  split; [reflexivity |]. split; [reflexivity |].
  eexists. split; reflexivity.
Qed.

(** A tie: two conversations updated at the same time come one per page,
    the greater id first, and the cursor is the row the page ended on. *)
Definition tied_db : MemDB :=
  {| mem_rows := [row "c_b" 7 1 0; row "c_a" 7 1 0];
     mem_max_seq := ∅; mem_read_seq := ∅; mem_settings := ∅; mem_last := ∅ |}.

Example page_one_then_two :
  (NextCursor <$> fst (GetUserConversationsPage mem_service tied_db "alice" false 1 0 EmptyString))
    = Some (Some {| cursor_UpdatedAt := 7; cursor_ConversationId := "c_b" |}) /\
  (fmap (M := list) ConversationInfo.ConversationId <$>
     (List <$> fst (GetUserConversationsPage mem_service tied_db "alice" false 1 7 "c_b")))
    = Some ["c_a"].
Proof. split; reflexivity. Qed.

End ListPageClaim.

(** *** C8: partial update of the conversation settings *)

Module UpdateClaim.
Import entity repository service Fixtures.

Definition only_recv_msg_opt (v : Z) : UpdateConversationRequest :=
  {| req_RecvMsgOpt := Some v; req_IsPinned := None |}.

Definition only_is_pinned (b : bool) : UpdateConversationRequest :=
  {| req_RecvMsgOpt := None; req_IsPinned := Some b |}.

Definition empty_patch : UpdateConversationRequest :=
  {| req_RecvMsgOpt := None; req_IsPinned := None |}.

(** What [UpdateConversation] does once the update map is not empty: one
    call of the storage layer's [Update], whose error becomes
    [ErrInternalServer]. *)
Definition one_update {DB : Type} (repo : ConversationRepo DB) (db : DB)
  (userId conversationId : string) (updates : gmap string UpdateValue)
  : DB * goerror * list RepoCall :=
  (fst (Update repo db userId conversationId updates),
   match snd (Update repo db userId conversationId updates) with
   | Some _ => Some errcode.ErrInternalServer
   | None => None
   end,
   [CallUpdate userId conversationId updates]).

Section Update.

Context `{Messages} {DB : Type}.
Variable s : ConversationService DB.

Lemma updates_of_empty : updates_of empty_patch = ∅.
Proof. reflexivity. Qed.

Lemma updates_of_recv_msg_opt (v : Z) :
  updates_of (only_recv_msg_opt v) = {["recv_msg_opt" := VInt32 v]}.
Proof. unfold updates_of. cbn. apply insert_empty. Qed.

Lemma updates_of_is_pinned (b : bool) :
  updates_of (only_is_pinned b) = {["is_pinned" := VBool b]}.
Proof. unfold updates_of. cbn. apply insert_empty. Qed.

Lemma UpdateConversation_nonempty (db : DB) (userId conversationId : string)
    (req : UpdateConversationRequest) :
  updates_of req <> ∅ ->
  UpdateConversation s db userId conversationId req
  = one_update (convRepo s) db userId conversationId (updates_of req).
Proof.
  intros Hne. unfold UpdateConversation, one_update.
  apply map_size_non_empty_iff in Hne.
  destruct (Nat.eqb_spec (size (updates_of req)) 0) as [Hz | _]; [contradiction |].
  destruct (Update (convRepo s) db userId conversationId (updates_of req)) as [db' [e |]];
    reflexivity.
Qed.

End Update.

(** C8.  An empty patch is a no-op: [UpdateConversation] succeeds, makes
    no call to the storage layer and leaves the database as it was.  With
    only [recv_msg_opt] (only [is_pinned]) present, it makes one [Update]
    call whose map holds that field and nothing else. *)
Theorem C8_update_conversation `{Messages} {DB : Type}
    (s : ConversationService DB) (db : DB) (userId conversationId : string) :
  UpdateConversation s db userId conversationId empty_patch = (db, None, []) /\
  (forall v,
     updates_of (only_recv_msg_opt v) = {["recv_msg_opt" := VInt32 v]} /\
     UpdateConversation s db userId conversationId (only_recv_msg_opt v)
     = one_update (convRepo s) db userId conversationId {["recv_msg_opt" := VInt32 v]}) /\
  (forall b,
     updates_of (only_is_pinned b) = {["is_pinned" := VBool b]} /\
     UpdateConversation s db userId conversationId (only_is_pinned b)
     = one_update (convRepo s) db userId conversationId {["is_pinned" := VBool b]}).
Proof.
  split; [reflexivity |]. split.
  - intros v. split; [apply updates_of_recv_msg_opt |].
    rewrite <- updates_of_recv_msg_opt. apply UpdateConversation_nonempty.
    rewrite updates_of_recv_msg_opt. apply (insert_non_empty (M := gmap string)).
  - intros b. split; [apply updates_of_is_pinned |].
    rewrite <- updates_of_is_pinned. apply UpdateConversation_nonempty.
    rewrite updates_of_is_pinned. apply (insert_non_empty (M := gmap string)).
Qed.

(** On the in-memory store: the empty patch changes nothing, pinning
    stores the one setting. *)
Example update_alice :
  UpdateConversation mem_service alice_db "alice" "c_a" empty_patch
    = (alice_db, None, []) /\
  mem_settings
    (fst (fst (UpdateConversation mem_service alice_db "alice" "c_a" (only_is_pinned true))))
    !! ("alice", "c_a") = Some {["is_pinned" := VBool true]}.
Proof. split; reflexivity. Qed.

End UpdateClaim.

(** *** Strings: case folding and trimming *)

Module GoStringsFacts.
Import GoStrings.

Lemma EqualFold_ToLower (a b : string) :
  EqualFold a b = true <-> ToLower a = ToLower b.
Proof.
  unfold ToLower. revert b. induction a as [| x a IH]; intros [| y b]; cbn.
  - tauto.
  - split; discriminate.
  - split; discriminate.
  - destruct (Ascii.eqb_spec (lower_char x) (lower_char y)) as [Heq | Hne].
    + rewrite IH. rewrite Heq. split; [intros ->; reflexivity | intros [=]; assumption].
    + split; [discriminate | intros [=]; contradiction].
Qed.

Fixpoint all_space (s : string) : bool :=
  match s with
  | EmptyString => true
  | String c s' => is_space c && all_space s'
  end.

Lemma trim_left_all_space (ws : string) :
  all_space ws = true -> trim_left ws = EmptyString.
Proof.
  induction ws as [| c ws IH]; cbn; [reflexivity |].
  intros [Hc Hws]%andb_true_iff. rewrite Hc. auto.
Qed.

Lemma trim_right_all_space (ws : string) :
  all_space ws = true -> trim_right ws = EmptyString.
Proof.
  induction ws as [| c ws IH]; cbn; [reflexivity |].
  intros [Hc Hws]%andb_true_iff. rewrite (IH Hws), Hc. reflexivity.
Qed.


Lemma trim_right_app_space (a ws : string) :
  all_space ws = true -> trim_right (a ++ ws) = trim_right a.
Proof.
  intros Hws. induction a as [| c a IH].
  - apply trim_right_all_space, Hws.
  - change (String c a ++ ws)%string with (String c (a ++ ws)%string). cbn.
    rewrite IH. reflexivity.
Qed.


End GoStringsFacts.

(** *** C9 and C4: service-to-service authentication *)

Module InternalAuth.
Import config crypto middleware.











Definition timestamp (c : Request) : string :=
  GoStrings.TrimSpace (GetHeader c InternalTimestampHeader).
Definition signature (c : Request) : string :=
  GoStrings.TrimSpace (GetHeader c InternalSignatureHeader).



Section Validate.

Context `{Hash}.









End Validate.

End InternalAuth.

Module InternalAuthClaims.
Import config crypto middleware InternalAuth.

Section Accept.

Context `{Hash}.




End Accept.

(** **** Requests to run the middleware on *)

Definition auth_config (enabled : bool) (allowed : list string) : Config :=
  {| InternalAuth :=
       {| Enabled := enabled; Secret := "s3cret";
          AllowedServices := allowed; MaxSkewSeconds := 300 |};
     JWT := {| JWT_Secret := "jwt-secret" |};
     ExternalJWT :=
       {| ExternalJWT_Enabled := false; ExternalJWT_Secret := EmptyString;
          DefaultRole := "user"; DefaultPlatformId := 5 |} |}.

(** A [POST /internal/msg/send] with body [{}]. *)
Definition send_request (headers : list (string * string)) : Request :=
  {| Header := list_to_map headers;
     Method := "post"; Path := "/internal/msg/send"; Body := "{}" |}.

Definition clock : Z := 1700000000.












(** The case the skew clause leaves out: a correctly signed request whose
    timestamp is exactly [2^63] seconds before [now] passes the skew
    check, because [now - ts] wraps to [-2^63] and [absInt64] of that is
    negative. *)
Example skew_check_wraps :
  validateInternalRequest (Some (auth_config true ["billing"])) clock
    (send_request
       [("X-Service-Name", "billing"); ("X-Timestamp", "-9223372035154775808");
        ("X-Signature", "770f659bef60a92b37891a5664a715e0365ca4a3832b8b3ba98a966bb574fea6")])
  = ("billing", None).
Proof. vm_compute. reflexivity. Qed.

End InternalAuthClaims.

(** *** Decimal numbers: [FormatInt] and [ParseInt] *)

Module DecimalFacts.
Import GoStrings.

(** The value of a string of digits read after [acc], without a bound. *)
Fixpoint digits_value (s : string) (acc : Z) : option Z :=
  match s with
  | EmptyString => Some acc
  | String c s' =>
      match digit_val c with
      | Some d => digits_value s' (acc * 10 + d)
      | None => None
      end
  end.

Lemma digit_val_range (c : ascii) (d : Z) : digit_val c = Some d -> 0 <= d <= 9.
Proof.
  unfold digit_val. intros Hd.
  destruct ((48 <=? byte_val c) && (byte_val c <=? 57)) eqn:Hr; [| discriminate].
  apply andb_true_iff in Hr. destruct Hr as [H1%Z.leb_le H2%Z.leb_le].
  injection Hd as <-. lia.
Qed.

Lemma digit_val_digit_char (d : Z) : 0 <= d <= 9 -> digit_val (digit_char d) = Some d.
Proof.
  intros Hd.
  pose proof (forall_below
                (fun k => match digit_val (digit_char k) with
                          | Some k' => k' =? k
                          | None => false
                          end) 10 eq_refl d ltac:(lia)) as Hk.
  cbv beta in Hk. destruct (digit_val (digit_char d)) as [d' |]; [| discriminate].
  apply Z.eqb_eq in Hk. congruence.
Qed.

Lemma digits_value_ge (s : string) (acc v : Z) :
  0 <= acc -> digits_value s acc = Some v -> acc <= v.
Proof.
  revert acc. induction s as [| c s IH]; cbn; intros acc Hacc Hv.
  - injection Hv as <-. lia.
  - destruct (digit_val c) as [d |] eqn:Hd; [| discriminate].
    apply digit_val_range in Hd. apply IH in Hv; lia.
Qed.

(** Below [2^64] the loop of [ParseUint] reads the value. *)
Lemma parseUint_loop_value (s : string) (acc v : Z) :
  0 <= acc -> digits_value s acc = Some v -> v < 2 ^ 64 ->
  parseUint_loop s acc = (v, None).
Proof.
  revert acc. induction s as [| c s IH]; cbn; intros acc Hacc Hv Hlt.
  - injection Hv as <-. reflexivity.
  - destruct (digit_val c) as [d |] eqn:Hd; [| discriminate].
    pose proof (digit_val_range _ _ Hd) as Hr.
    assert (Hge : acc * 10 + d <= v) by (apply (digits_value_ge s); [lia | exact Hv]).
    destruct (Z.leb_spec (2 ^ 64) (acc * 10 + d)); [lia |].
    apply IH; [lia | assumption | assumption].
Qed.

Lemma parseUint_loop_inv (s : string) (acc v : Z) :
  parseUint_loop s acc = (v, None) -> digits_value s acc = Some v.
Proof.
  revert acc. induction s as [| c s IH]; cbn; intros acc Hv.
  - injection Hv as <-. reflexivity.
  - destruct (digit_val c) as [d |]; [| discriminate].
    destruct (2 ^ 64 <=? acc * 10 + d); [discriminate |]. apply IH, Hv.
Qed.

Lemma parseUint_loop_range (s : string) (acc v : Z) :
  parseUint_loop s acc = (v, Some ErrRange) -> v = 2 ^ 64 - 1.
Proof.
  revert acc. induction s as [| c s IH]; cbn; intros acc Hv; [discriminate |].
  destruct (digit_val c) as [d |]; [| discriminate].
  destruct (2 ^ 64 <=? acc * 10 + d); [injection Hv as <-; reflexivity |].
  apply (IH _ Hv).
Qed.

(** The digits [format_digits] puts in front of [rest] read as [n]. *)
Lemma format_digits_value (fuel : nat) (n : Z) (rest : string) :
  0 <= n < 10 ^ Z.of_nat fuel ->
  exists p, 0 < p /\
    forall acc, digits_value (format_digits fuel n rest) acc
                = digits_value rest (acc * p + n).
Proof.
  revert n rest. induction fuel as [| fuel IH]; intros n rest Hn.
  - exists 1. split; [lia |]. intros acc. cbn in *. f_equal. lia.
  - cbn [format_digits].
    destruct (Z.ltb_spec n 10) as [Hsmall | Hbig].
    + exists 10. split; [lia |]. intros acc. cbn.
      rewrite Z.mod_small by lia. rewrite digit_val_digit_char by lia. reflexivity.
    + assert (Hdiv : 0 <= n / 10 < 10 ^ Z.of_nat fuel).
      { split; [apply Z.div_pos; lia |].
        apply Z.div_lt_upper_bound; [lia |].
        rewrite Nat2Z.inj_succ, Z.pow_succ_r in Hn by lia. lia. }
      destruct (IH (n / 10) (String (digit_char (n mod 10)) rest) Hdiv) as (p & Hp & Hval).
      exists (p * 10). split; [lia |]. intros acc. rewrite Hval. cbn.
      pose proof (Z.mod_pos_bound n 10 ltac:(lia)) as Hm.
      rewrite digit_val_digit_char by lia. f_equal.
      pose proof (Z.div_mod n 10 ltac:(lia)). lia.
Qed.

(** What [format_digits] writes starts with a digit. *)
Lemma format_digits_head (fuel : nat) (n : Z) (rest : string) :
  fuel <> O ->
  exists m tl, format_digits fuel n rest = String (digit_char (m mod 10)) tl.
Proof.
  revert n rest. induction fuel as [| fuel IH]; intros n rest Hf; [contradiction |].
  cbn [format_digits]. destruct (n <? 10); [eauto |].
  destruct fuel as [| fuel']; [cbn; eauto |]. apply IH. discriminate.
Qed.

Lemma FormatUint_value (n : Z) :
  0 <= n < 2 ^ 64 -> digits_value (FormatUint n) 0 = Some n.
Proof.
  intros Hn. unfold FormatUint.
  destruct (format_digits_value 20 n EmptyString) as (p & _ & Hval);
    [change (10 ^ Z.of_nat 20) with 100000000000000000000;
     change (2 ^ 64) with 18446744073709551616 in Hn; lia |].
  rewrite Hval. reflexivity.
Qed.

Lemma digit_char_not_sign (m : Z) :
  Ascii.eqb (digit_char (m mod 10)) "+" = false /\
  Ascii.eqb (digit_char (m mod 10)) "-" = false.
Proof.
  pose proof (Z.mod_pos_bound m 10 ltac:(lia)) as Hm.
  pose proof (digit_val_digit_char (m mod 10) ltac:(lia)) as Hd.
  split; apply Ascii.eqb_neq; intros Heq; rewrite Heq in Hd; discriminate.
Qed.

Lemma ParseUint_FormatUint (n : Z) :
  0 <= n < 2 ^ 64 -> ParseUint (FormatUint n) = (n, None).
Proof.
  intros Hn. pose proof (FormatUint_value n Hn) as Hv.
  destruct (format_digits_head 20 n EmptyString ltac:(discriminate)) as (m & tl & Hhd).
  unfold FormatUint in *. rewrite Hhd in *. unfold ParseUint.
  apply parseUint_loop_value; [lia | exact Hv | lia].
Qed.

(** [ParseInt] by the first character. *)
Definition signed_result (neg : bool) (r : Z * option NumError) : Z * option NumError :=
  match r with
  | (_, Some ErrSyntax) => (0, Some ErrSyntax)
  | (un, _) =>
      if negb neg && (2 ^ 63 <=? un) then (2 ^ 63 - 1, Some ErrRange)
      else if neg && (2 ^ 63 <? un) then (- 2 ^ 63, Some ErrRange)
      else (if neg then - un else un, None)
  end.

Lemma ParseInt_minus (body : string) :
  ParseInt (String "-" body) = signed_result true (ParseUint body).
Proof. reflexivity. Qed.

Lemma ParseInt_plus (body : string) :
  ParseInt (String "+" body) = signed_result false (ParseUint body).
Proof. reflexivity. Qed.

Lemma ParseInt_unsigned (c : ascii) (rest : string) :
  Ascii.eqb c "+" = false -> Ascii.eqb c "-" = false ->
  ParseInt (String c rest) = signed_result false (ParseUint (String c rest)).
Proof. intros Hp Hm. unfold ParseInt. rewrite Hp, Hm. reflexivity. Qed.

Lemma signed_result_ok (neg : bool) (un : Z) :
  0 <= un -> (if neg then un <= 2 ^ 63 else un < 2 ^ 63) ->
  signed_result neg (un, None) = (if neg then - un else un, None).
Proof.
  intros H0 Hb. unfold signed_result. destruct neg; cbn [negb andb].
  - destruct (Z.ltb_spec (2 ^ 63) un); [lia | reflexivity].
  - destruct (Z.leb_spec (2 ^ 63) un); [lia | reflexivity].
Qed.

(** Reading what [FormatInt] printed gives the number back. *)
Lemma ParseInt_FormatInt (v : Z) :
  Int64.fits v -> ParseInt (FormatInt v) = (v, None).
Proof.
  intros Hv. int64_unfold.
  unfold FormatInt. destruct (Z.ltb_spec v 0) as [Hneg | Hpos].
  - rewrite ParseInt_minus, ParseUint_FormatUint by lia.
    rewrite signed_result_ok by lia. f_equal. lia.
  - pose proof (ParseUint_FormatUint v ltac:(lia)) as Hu.
    destruct (format_digits_head 20 v EmptyString ltac:(discriminate)) as (m & tl & Hhd).
    unfold FormatUint in *. rewrite Hhd in *.
    destruct (digit_char_not_sign m) as [Hp Hm].
    rewrite (ParseInt_unsigned _ _ Hp Hm), Hu.
    rewrite signed_result_ok by lia. reflexivity.
Qed.

(** A decimal [int64]: an optional sign, then one digit at least, the
    value within range. *)
Definition decimal_int64 (body : string) (v : Z) : Prop :=
  exists sign ds n,
    body = (sign ++ ds)%string /\
    ds <> EmptyString /\
    digits_value ds 0 = Some n /\
    ((sign = EmptyString \/ sign = "+") /\ v = n \/ sign = "-" /\ v = - n) /\
    Int64.fits v.

Lemma ParseUint_inv (s : string) (un : Z) (e : option NumError) :
  ParseUint s = (un, e) -> e <> Some ErrSyntax ->
  s <> EmptyString /\
  (e = None /\ digits_value s 0 = Some un \/ e = Some ErrRange /\ un = 2 ^ 64 - 1).
Proof.
  unfold ParseUint. destruct s as [| c s]; [intros [= <- <-]; contradiction |].
  intros Hp Hne. split; [discriminate |].
  destruct e as [[] |].
  - contradiction.
  - right. split; [reflexivity |]. apply (parseUint_loop_range _ _ _ Hp).
  - left. split; [reflexivity |]. apply parseUint_loop_inv, Hp.
Qed.

Lemma ParseInt_split (body : string) :
  body <> EmptyString ->
  exists neg sign ds,
    body = (sign ++ ds)%string /\
    ParseInt body = signed_result neg (ParseUint ds) /\
    (neg = false /\ (sign = EmptyString \/ sign = "+") \/ neg = true /\ sign = "-").
Proof.
  destruct body as [| c rest]; [contradiction |]. intros _.
  destruct (Ascii.eqb_spec c "+") as [-> | Hp].
  - exists false, "+", rest. split; [reflexivity |].
    split; [apply ParseInt_plus | left; auto].
  - destruct (Ascii.eqb_spec c "-") as [-> | Hm].
    + exists true, "-", rest. split; [reflexivity |].
      split; [apply ParseInt_minus | right; auto].
    + exists false, EmptyString, (String c rest). split; [reflexivity |].
      split; [| left; auto].
      apply ParseInt_unsigned; apply Ascii.eqb_neq; assumption.
Qed.

Lemma ParseInt_sound (body : string) (v : Z) :
  ParseInt body = (v, None) -> decimal_int64 body v.
Proof.
  intros Hres.
  assert (Hne : body <> EmptyString) by (intros ->; discriminate).
  destruct (ParseInt_split body Hne) as (neg & sign & ds & Hbody & Hparse & Hsign).
  rewrite Hparse in Hres. clear Hparse.
  destruct (ParseUint ds) as [un e] eqn:Hu.
  assert (Hsyn : e <> Some ErrSyntax) by (intros ->; discriminate).
  destruct (ParseUint_inv _ _ _ Hu Hsyn) as (Hds & [(-> & Hval) | (-> & ->)]).
  - assert (Hge : 0 <= un) by (apply (digits_value_ge ds); [lia | exact Hval]).
    exists sign, ds, un. split; [exact Hbody |]. split; [exact Hds |].
    split; [exact Hval |].
    int64_unfold.
    unfold signed_result in Hres.
    destruct Hsign as [(-> & Hsg) | (-> & Hsg)]; cbn [negb andb] in Hres.
    + destruct (Z.leb_spec (2 ^ 63) un); [discriminate |].
      injection Hres as <-. split; [left; auto | lia].
    + destruct (Z.ltb_spec (2 ^ 63) un); [discriminate |].
      injection Hres as <-. split; [right; auto | lia].
  - exfalso. destruct neg; cbn in Hres; discriminate.
Qed.

Lemma ParseInt_complete (body : string) (v : Z) :
  decimal_int64 body v -> ParseInt body = (v, None).
Proof.
  intros (sign & ds & n & -> & Hds & Hval & Hsign & Hfit).
  int64_unfold.
  assert (Hge : 0 <= n) by (apply (digits_value_ge ds); [lia | exact Hval]).
  assert (Hu : ParseUint ds = (n, None)).
  { unfold ParseUint. destruct ds as [| c ds]; [contradiction |].
    apply parseUint_loop_value; [lia | exact Hval |].
    destruct Hsign as [(_ & ->) | (_ & ->)]; lia. }
  destruct Hsign as [([-> | ->] & ->) | (-> & ->)].
  - destruct ds as [| c ds]; [contradiction |].
    change (EmptyString ++ String c ds)%string with (String c ds).
    assert (Hc : Ascii.eqb c "+" = false /\ Ascii.eqb c "-" = false).
    { cbn in Hval. destruct (digit_val c) eqn:Hd; [| discriminate].
      split; apply Ascii.eqb_neq; intros ->; discriminate. }
    destruct Hc as [Hp Hm]. rewrite (ParseInt_unsigned _ _ Hp Hm), Hu.
    apply (signed_result_ok false); lia.
  - change ("+" ++ ds)%string with (String "+" ds).
    rewrite ParseInt_plus, Hu. apply (signed_result_ok false); lia.
  - change ("-" ++ ds)%string with (String "-" ds).
    rewrite ParseInt_minus, Hu. apply (signed_result_ok true); lia.
Qed.

Lemma strip_prefix_app (p body : string) : strip_prefix p (p ++ body) = Some body.
Proof.
  induction p as [| c p IH]; [reflexivity |].
  change (String c p ++ body)%string with (String c (p ++ body)%string). cbn.
  rewrite Ascii.eqb_refl. exact IH.
Qed.

Lemma strip_prefix_inv (p s body : string) :
  strip_prefix p s = Some body -> s = (p ++ body)%string.
Proof.
  revert s. induction p as [| c p IH]; intros s; cbn.
  - intros [= ->]. reflexivity.
  - destruct s as [| d s]; [discriminate |].
    destruct (Ascii.eqb_spec c d) as [-> | _]; [| discriminate].
    intros Hs. apply IH in Hs. rewrite Hs. reflexivity.
Qed.

End DecimalFacts.

(** *** C5 and C10: actors and their string form *)

Module ActorFacts.
Import common DecimalFacts.

Definition valid_actor (a : Actor) : Prop :=
  valid_role (Role a) = true /\ Int64.fits (Id a).

(** The well-formed user ids: the tag of a role, then a decimal [int64]. *)
Definition well_formed (userId : string) : Prop :=
  exists r tag body v,
    role_tag r = Some tag /\ userId = (tag ++ body)%string /\ decimal_int64 body v.

Lemma parse_id_ok (r : ActorRole) (body : string) (v : Z) :
  decimal_int64 body v -> parse_id r body = Some {| Id := v; Role := r |}.
Proof. intros Hd. unfold parse_id. rewrite (ParseInt_complete _ _ Hd). reflexivity. Qed.

Lemma parse_id_inv (r : ActorRole) (body : string) (a : Actor) :
  parse_id r body = Some a -> Role a = r /\ decimal_int64 body (Id a).
Proof.
  unfold parse_id. destruct (GoStrings.ParseInt body) as [id [e |]] eqn:Hp; [discriminate |].
  intros [= <-]. split; [reflexivity | apply ParseInt_sound, Hp].
Qed.

Lemma FromIMUserId_ok (a0 : Actor) (r : ActorRole) (tag body : string) (v : Z) :
  role_tag r = Some tag -> decimal_int64 body v ->
  FromIMUserId a0 (tag ++ body) = ({| Id := v; Role := r |}, None).
Proof.
  intros Hr Hd. unfold FromIMUserId.
  destruct r; cbn in Hr; try discriminate; injection Hr as <-.
  - rewrite strip_prefix_app, (parse_id_ok _ _ _ Hd). reflexivity.
  - change (GoStrings.strip_prefix "u___" ("ag__" ++ body)) with (@None string).
    rewrite strip_prefix_app, (parse_id_ok _ _ _ Hd). reflexivity.
Qed.

Lemma FromIMUserId_inv (a0 a : Actor) (userId : string) :
  FromIMUserId a0 userId = (a, None) -> valid_actor a /\ well_formed userId.
Proof.
  unfold FromIMUserId.
  destruct (GoStrings.strip_prefix "u___" userId) as [body |] eqn:Hu.
  - destruct (parse_id RoleUser body) as [a' |] eqn:Hp; [| discriminate].
    intros [= <-]. apply parse_id_inv in Hp. destruct Hp as [Hrole Hd].
    apply strip_prefix_inv in Hu. split.
    + split; [rewrite Hrole; reflexivity |]. destruct Hd as (? & ? & ? & _ & _ & _ & _ & Hf).
      exact Hf.
    + exists RoleUser, "u___", body, (Id a'). auto.
  - destruct (GoStrings.strip_prefix "ag__" userId) as [body |] eqn:Hg; [| discriminate].
    destruct (parse_id RoleAgent body) as [a' |] eqn:Hp; [| discriminate].
    intros [= <-]. apply parse_id_inv in Hp. destruct Hp as [Hrole Hd].
    apply strip_prefix_inv in Hg. split.
    + split; [rewrite Hrole; reflexivity |]. destruct Hd as (? & ? & ? & _ & _ & _ & _ & Hf).
      exact Hf.
    + exists RoleAgent, "ag__", body, (Id a'). auto.
Qed.

(** Parsing gives an actor and no error, or the one error and the
    receiver untouched. *)
Lemma FromIMUserId_total (a0 : Actor) (userId : string) :
  (exists a, FromIMUserId a0 userId = (a, None)) \/
  FromIMUserId a0 userId = (a0, Some errcode.ErrInvalidActor).
Proof.
  unfold FromIMUserId.
  destruct (match GoStrings.strip_prefix "u___" userId with
            | Some body => parse_id RoleUser body
            | None => match GoStrings.strip_prefix "ag__" userId with
                      | Some body => parse_id RoleAgent body
                      | None => None
                      end
            end) as [a |]; [left; eauto | right; reflexivity].
Qed.

Lemma FromIMUserId_malformed (a0 : Actor) (userId : string) :
  ~ well_formed userId ->
  FromIMUserId a0 userId = (a0, Some errcode.ErrInvalidActor).
Proof.
  intros Hbad. destruct (FromIMUserId_total a0 userId) as [[a Ha] | Herr]; [| exact Herr].
  apply FromIMUserId_inv in Ha. destruct Ha as [_ Hwf]. contradiction.
Qed.

Lemma decimal_int64_FormatInt (v : Z) :
  Int64.fits v -> decimal_int64 (GoStrings.FormatInt v) v.
Proof. intros Hv. apply ParseInt_sound, ParseInt_FormatInt, Hv. Qed.

Lemma round_trip (a : Actor) :
  valid_actor a ->
  exists userId,
    ToIMUserId a = (userId, None) /\ FromIMUserId zero_actor userId = (a, None).
Proof.
  intros [Hrole Hid]. destruct a as [id r]. cbn in *.
  unfold ToIMUserId. cbn [Role Id].
  destruct (role_tag r) as [tag |] eqn:Htag; [| destruct r; discriminate].
  eexists. split; [reflexivity |].
  apply FromIMUserId_ok; [exact Htag | apply decimal_int64_FormatInt, Hid].
Qed.

End ActorFacts.

Module ActorClaims.
Import common sdk DecimalFacts ActorFacts.

(** C5.  For every valid actor (role user or agent, id an [int64]) the
    string form parses back to the actor, with no error; this holds of the
    SDK helpers [GetUserActorUserId] / [GetAgentActorUserId] followed by
    [GetActorFromUserId].  For every malformed string (one that is not a
    role tag followed by a decimal [int64]) parsing returns the error
    [ErrInvalidActor] and no actor is filled in; whenever parsing returns
    no error, the actor is valid and the string was well formed. *)
Theorem C5_actor_round_trip :
  (forall a, valid_actor a ->
     exists userId,
       ToIMUserId a = (userId, None) /\
       GetActorFromUserId FromIMUserId userId = (a, None)) /\
  (forall id, Int64.fits id ->
     GetActorFromUserId FromIMUserId (GetUserActorUserId ToIMUserId id)
       = ({| Id := id; Role := RoleUser |}, None) /\
     GetActorFromUserId FromIMUserId (GetAgentActorUserId ToIMUserId id)
       = ({| Id := id; Role := RoleAgent |}, None)) /\
  (forall userId, ~ well_formed userId ->
     GetActorFromUserId FromIMUserId userId = (zero_actor, Some errcode.ErrInvalidActor)) /\
  (forall userId a,
     GetActorFromUserId FromIMUserId userId = (a, None) ->
     valid_actor a /\ well_formed userId).
Proof.
  split; [exact round_trip |].
  split.
  { intros id Hid. unfold GetActorFromUserId, GetUserActorUserId, GetAgentActorUserId.
    split.
    - destruct (round_trip {| Id := id; Role := RoleUser |}) as (s & Hs & Hback);
        [split; [reflexivity | exact Hid] |].
      rewrite Hs. exact Hback.
    - destruct (round_trip {| Id := id; Role := RoleAgent |}) as (s & Hs & Hback);
        [split; [reflexivity | exact Hid] |].
      rewrite Hs. exact Hback. }
  split; [intros userId; apply FromIMUserId_malformed |].
  intros userId a. apply FromIMUserId_inv.
Qed.

Lemma bad_is_malformed : ~ well_formed "bad".
Proof.
  intros (r & tag & body & v & Hr & Hs & _).
  destruct r; cbn in Hr; try discriminate; injection Hr as <-; discriminate Hs.
Defined.

Lemma fits_12 : Int64.fits 12.
Proof. split; discriminate. Defined.

(** User 12 is ["u___12"] and back, agent 12 is ["ag__12"] and back;
    ["bad"] is an error. *)
Lemma C5_actor_round_trip_witness :
  GetUserActorUserId ToIMUserId 12 = "u___12" /\
  GetActorFromUserId FromIMUserId (GetUserActorUserId ToIMUserId 12)
    = ({| Id := 12; Role := RoleUser |}, None) /\
  GetActorFromUserId FromIMUserId (GetAgentActorUserId ToIMUserId 12)
    = ({| Id := 12; Role := RoleAgent |}, None) /\
  GetActorFromUserId FromIMUserId "bad" = (zero_actor, Some errcode.ErrInvalidActor).
Proof.
  destruct C5_actor_round_trip as (_ & Hsdk & Hbad & _).
  split; [reflexivity |].
  split; [exact (proj1 (Hsdk 12 fits_12)) |].
  split; [exact (proj2 (Hsdk 12 fits_12)) |].
  exact (Hbad "bad" bad_is_malformed).
Defined.

(** The ids of the repository's tests, and the ends of the [int64] range. *)
Example parse_test_ids :
  fst (GetActorFromUserId FromIMUserId "u___12") = {| Id := 12; Role := RoleUser |} /\
  fst (GetActorFromUserId FromIMUserId "ag__34") = {| Id := 34; Role := RoleAgent |} /\
  GetActorFromUserId FromIMUserId "u___124210684493952"
    = ({| Id := 124210684493952; Role := RoleUser |}, None) /\
  GetUserActorUserId ToIMUserId (- 2 ^ 63) = "u___-9223372036854775808" /\
  snd (GetActorFromUserId FromIMUserId "u___9223372036854775808")
    = Some errcode.ErrInvalidActor.
Proof. repeat split; vm_compute; reflexivity. Qed.

(** C10.  [MGetActorFromUserIds] never appends to its result: when every
    element parses it returns the nil list (of length 0, whatever the
    length of the input) and a nil error; when some element is malformed
    it returns the nil list and the error of the first such element.
    This holds for every implementation of [FromIMUserId]. *)
Theorem C10_mget_actor_from_user_ids
    (fromIMUserId : Actor -> string -> Actor * goerror) (userIds : list string) :
  (Forall (fun userId => snd (fromIMUserId zero_actor userId) = None) userIds ->
   MGetActorFromUserIds fromIMUserId userIds = ([], None) /\
   length (fst (MGetActorFromUserIds fromIMUserId userIds)) = 0%nat /\
   (userIds <> [] ->
    length (fst (MGetActorFromUserIds fromIMUserId userIds)) <> length userIds)) /\
  (Exists (fun userId => snd (fromIMUserId zero_actor userId) <> None) userIds ->
   exists err, MGetActorFromUserIds fromIMUserId userIds = ([], Some err)).
Proof.
  unfold MGetActorFromUserIds. split.
  - intros Hall.
    assert (Hnil : MGetActorFromUserIds_loop fromIMUserId [] userIds = ([], None)).
    { induction Hall as [| userId rest Hhd _ IH]; [reflexivity |].
      cbn. destruct (fromIMUserId zero_actor userId) as [a e]. cbn in Hhd. subst e.
      exact IH. }
    rewrite Hnil. split; [reflexivity |]. split; [reflexivity |].
    intros Hne. destruct userIds; [contradiction | discriminate].
  - intros Hex. induction userIds as [| userId rest IH].
    + inversion Hex.
    + cbn. destruct (fromIMUserId zero_actor userId) as [a [e |]] eqn:Hhd; [eauto |].
      apply IH. inversion Hex as [? ? Hbad | ? ? Htl]; subst; [| exact Htl].
      rewrite Hhd in Hbad. contradiction.
Qed.

(** The inputs of [TestMGetActorFromUserIds] and of
    [TestMGetActorFromUserIds_InvalidInput]: for the first the test wants
    two actors and gets none. *)
Lemma C10_mget_actor_from_user_ids_witness :
  (MGetActorFromUserIds FromIMUserId ["u___12"; "ag__34"] = ([], None) /\
   length (fst (MGetActorFromUserIds FromIMUserId ["u___12"; "ag__34"])) = 0%nat /\
   length (fst (MGetActorFromUserIds FromIMUserId ["u___12"; "ag__34"])) <> 2%nat) /\
  (exists err, MGetActorFromUserIds FromIMUserId ["u___1"; "bad"] = ([], Some err)).
Proof.
  split.
  - destruct (proj1 (C10_mget_actor_from_user_ids FromIMUserId ["u___12"; "ag__34"]))
      as (Hnil & Hlen & Hne); [repeat constructor |].
    split; [exact Hnil |]. split; [exact Hlen |]. apply Hne. discriminate.
  - apply (proj2 (C10_mget_actor_from_user_ids FromIMUserId ["u___1"; "bad"])).
    apply Exists_cons_tl, Exists_cons_hd. discriminate.
Defined.

End ActorClaims.

(** *** C6: the multi-issuer token verifier *)

Module TokenClaims.
Import jwt.

Section External.

Context `{Lib}.
Variable ParseToken : string -> string -> option Claims * goerror.
Variable ParseWithClaims : string -> (ExternalClaims -> string) -> Token + errcode.Error.

(** [ParseMultiIssuer] accepts the token as an external one: it is not a
    native token, and the library verifies it, with the key picked by
    issuer, as a valid token carrying [ext]. *)
Definition accepted_as_external (tokenString nexoSecret externalSecret : string)
  (ext : ExternalClaims) : Prop :=
  snd (ParseToken tokenString nexoSecret) <> None /\
  ParseWithClaims tokenString (multi_issuer_key nexoSecret externalSecret)
  = inl {| Token_Claims := ext; Valid := true |}.

Lemma ParseMultiIssuer_external (tokenString nexoSecret externalSecret : string)
    (ext : ExternalClaims) :
  accepted_as_external tokenString nexoSecret externalSecret ext ->
  ParseMultiIssuer ParseToken ParseWithClaims tokenString nexoSecret externalSecret
  = (Some {| UserId := External_UserId ext;
             PlatformId := 1;
             Claims_RegisteredClaims := External_RegisteredClaims ext |},
     None).
Proof.
  intros [Hnative Hext]. unfold ParseMultiIssuer.
  destruct (ParseToken tokenString nexoSecret) as [c [e |]]; [| contradiction].
  rewrite Hext. reflexivity.
Qed.

End External.

(** C6, as amended.  For every external-issuer token the multi-issuer
    verifier accepts, the resulting claims carry the external token's
    [user_id] unchanged as the native user id, its registered claims, and
    the platform id 1, which is not the id of the Web platform (5). *)
Theorem C6_external_claims `{Lib}
    (ParseToken : string -> string -> option Claims * goerror)
    (ParseWithClaims : string -> (ExternalClaims -> string) -> Token + errcode.Error)
    (tokenString nexoSecret externalSecret : string) (ext : ExternalClaims) :
  accepted_as_external ParseToken ParseWithClaims tokenString nexoSecret externalSecret ext ->
  exists claims,
    ParseMultiIssuer ParseToken ParseWithClaims tokenString nexoSecret externalSecret
    = (Some claims, None) /\
    UserId claims = External_UserId ext /\
    Claims_RegisteredClaims claims = External_RegisteredClaims ext /\
    PlatformId claims = 1 /\
    PlatformId claims <> middleware.PlatformIdWeb.
Proof.
  intros Hacc. eexists. split; [apply ParseMultiIssuer_external, Hacc |].
  cbn. repeat split. discriminate.
Qed.

(** **** A library that knows one external token *)

#[export] Instance issuer_only : Lib := {| RegisteredClaims := string; Issuer := fun i => i |}.

Definition no_native_token (tokenString secret : string)
  : option (@Claims issuer_only) * goerror :=
  (None, Some errcode.ErrTokenInvalid).

Definition u_42_claims : @ExternalClaims issuer_only :=
  @Build_ExternalClaims issuer_only "u_42" "external-system".

(** ["ext-token"] is user ["u_42"]'s token, issued by ["external-system"]
    and signed with ["ext-secret"]. *)
Definition one_external_token (tokenString : string)
  (keyFunc : @ExternalClaims issuer_only -> string)
  : @Token issuer_only + errcode.Error :=
  if String.eqb tokenString "ext-token" && String.eqb (keyFunc u_42_claims) "ext-secret"
  then inl {| Token_Claims := u_42_claims; Valid := true |}
  else inr errcode.ErrTokenInvalid.

Lemma C6_external_claims_witness :
  exists claims,
    ParseMultiIssuer no_native_token one_external_token "ext-token" "nexo-secret" "ext-secret"
    = (Some claims, None) /\
    UserId claims = "u_42" /\
    Claims_RegisteredClaims claims = "external-system" /\
    PlatformId claims = 1 /\
    PlatformId claims <> middleware.PlatformIdWeb.
Proof.
  apply (C6_external_claims no_native_token one_external_token
           "ext-token" "nexo-secret" "ext-secret" u_42_claims).
  split; [discriminate | reflexivity].
Defined.

(** C6 as stated fails: the accepted external token gets platform 1, and
    the Web platform is 5. *)
Lemma C6_counterexample :
  (PlatformId <$>
     fst (ParseMultiIssuer no_native_token one_external_token
            "ext-token" "nexo-secret" "ext-secret")) = Some 1 /\
  middleware.PlatformIdWeb = 5 /\
  Some 1 <> Some middleware.PlatformIdWeb.
Proof. split; [reflexivity |]. split; [reflexivity | discriminate]. Qed.

End TokenClaims.

(** *** C7: the write side of a connection *)

Module ConnFacts.
Import gateway.

(** What holds of a connection whatever has happened to it. *)
Record Inv (c : WebsocketClientConn) : Prop := {
  inv_closed : closed c = closeOnce c;
  inv_writeChan : writeChanClosed c = closeOnce c;
  inv_closeChan : closeChanClosed c = closeOnce c;
  inv_socket : conn_closes c = if loopRunning c then 0%nat else 1%nat;
  inv_cap : (length (writeChan c) <= writeChanCap)%nat
}.

Lemma Inv_new : Inv NewWebSocketClientConn.
Proof. split; cbn; try reflexivity. unfold writeChanCap. lia. Qed.

Lemma WriteMessage_cases (c : WebsocketClientConn) (data : string) :
  Inv c ->
  (closed c = true /\ WriteMessage c data = Returns (c, Some ErrConnClosed)) \/
  (closed c = false /\ (length (writeChan c) < writeChanCap)%nat /\
   WriteMessage c data = Returns (enqueue c data, None)) \/
  (closed c = false /\ length (writeChan c) = writeChanCap /\
   WriteMessage c data = Returns (c, Some ErrWriteChannelFull)).
Proof.
  intros HI. unfold WriteMessage.
  destruct (closed c) eqn:Hc; [left; auto | right].
  rewrite (inv_writeChan c HI), <- (inv_closed c HI), Hc.
  pose proof (inv_cap c HI) as Hcap.
  destruct (Nat.ltb_spec (length (writeChan c)) writeChanCap); [left | right]; auto.
  repeat split. lia.
Qed.

Lemma Inv_enqueue (c : WebsocketClientConn) (data : string) :
  Inv c -> (length (writeChan c) < writeChanCap)%nat -> Inv (enqueue c data).
Proof.
  intros [] Hlt. split; cbn; try assumption.
  rewrite length_app. cbn. lia.
Qed.

Lemma Close_cases (c : WebsocketClientConn) :
  Inv c ->
  exists c', Close c = Returns (c', None) /\ Inv c' /\
             closeOnce c' = true /\ closed c' = true /\
             writeChan c' = writeChan c /\ loopRunning c' = loopRunning c /\
             conn_closes c' = conn_closes c /\
             (closeOnce c = true -> c' = c).
Proof.
  intros HI. unfold Close. destruct (closeOnce c) eqn:Ho.
  - exists c. repeat split; try apply HI; auto.
    rewrite (inv_closed c HI). exact Ho.
  - rewrite (inv_writeChan c HI), (inv_closeChan c HI), Ho. cbn [orb].
    eexists. split; [reflexivity |]. repeat split; cbn; try apply HI. discriminate.
Qed.

Lemma Inv_loop (c : WebsocketClientConn) (choice : LoopChoice) :
  Inv c -> Inv (writeLoop_step c choice).
Proof.
  intros HI. unfold writeLoop_step.
  destruct (loopRunning c) eqn:Hrun; cbn [negb]; [| exact HI].
  pose proof (inv_socket c HI) as Hs. rewrite Hrun in Hs.
  pose proof (inv_cap c HI) as Hcap.
  assert (Htl : (length (tail (writeChan c)) <= writeChanCap)%nat)
    by (destruct (writeChan c); cbn in *; lia).
  destruct HI as [H1 H2 H3 _ _].
  destruct choice as [[] | [] |]; try destruct (writeChan c) eqn:Hq;
    try destruct (writeChanClosed c) eqn:Hwc;
    try destruct (closeChanClosed c) eqn:Hcc;
    split; cbn; rewrite ?Hq, ?Hrun, ?Hs, ?Hwc, ?Hcc in *; cbn in *;
    first [assumption | reflexivity | lia].
Qed.

Lemma step_Inv (c : WebsocketClientConn) (e : Event) :
  Inv c -> exists c', step c e = Returns c' /\ Inv c' /\
                      (closeOnce c = true -> closeOnce c' = true) /\
                      (e = EvClose -> closeOnce c' = true).
Proof.
  intros HI. destruct e as [data | | choice]; cbn [step].
  - destruct (WriteMessage_cases c data HI)
      as [(_ & ->) | [(_ & Hlt & ->) | (_ & _ & ->)]].
    + exists c. split; [reflexivity |]. split; [exact HI |]. split; [auto | discriminate].
    + exists (enqueue c data). split; [reflexivity |].
      split; [apply Inv_enqueue; assumption |]. split; [auto | discriminate].
    + exists c. split; [reflexivity |]. split; [exact HI |]. split; [auto | discriminate].
  - destruct (Close_cases c HI) as (c' & -> & HI' & Ho & _).
    exists c'. auto.
  - exists (writeLoop_step c choice). split; [reflexivity |].
    split; [apply Inv_loop, HI |]. split; [| discriminate].
    unfold writeLoop_step. destruct (loopRunning c); cbn [negb]; [| auto].
    destruct choice as [[] | [] |]; try destruct (writeChan c);
      try destruct (writeChanClosed c); try destruct (closeChanClosed c); cbn; auto.
Qed.


End ConnFacts.

Module ConnClaims.
Import gateway ConnFacts.



(** The 257th frame in a row, with nobody reading, is refused and the
    channel keeps its 256. *)
Example channel_full :
  match run NewWebSocketClientConn (repeat (EvWriteMessage "x") 256) with
  | Returns c =>
      length (writeChan c) = 256%nat /\
      WriteMessage c "y" = Returns (c, Some ErrWriteChannelFull)
  | Panics => False
  end.
Proof. vm_compute. split; reflexivity. Qed.

(** Frames reach the socket in the order they were queued. *)
Example fifo :
  match run NewWebSocketClientConn
          [EvWriteMessage "1"; EvWriteMessage "2"; EvLoop (RecvWriteChan true);
           EvWriteMessage "3"; EvLoop (RecvWriteChan true); EvLoop (RecvWriteChan true)] with
  | Returns c => conn_written c = [BinaryMessage "1"; BinaryMessage "2"; BinaryMessage "3"]
  | Panics => False
  end.
Proof. reflexivity. Qed.

End ConnClaims.

(** *** C3: an opcode nobody handles *)

Module DispatchClaims.
Import gateway.






End DispatchClaims.

(** ** Part III: properties of the rest of the code *)

(** *** Facts about trimming *)

Module TrimFacts.
Import GoStrings GoStringsMore GoStringsFacts.

Lemma trim_right_cons (c : ascii) (s : string) :
  trim_right (String c s)
  = match trim_right s with
    | EmptyString => if is_space c then EmptyString else String c EmptyString
    | r => String c r
    end.
Proof. reflexivity. Qed.

Lemma trim_right_idem (s : string) : trim_right (trim_right s) = trim_right s.
Proof.
  induction s as [| c s IH]; [reflexivity |]. rewrite trim_right_cons.
  destruct (trim_right s) as [| d r] eqn:Hr.
  - destruct (is_space c) eqn:Hc; [reflexivity |]. cbn. rewrite Hc. reflexivity.
  - rewrite trim_right_cons, IH. reflexivity.
Qed.






Lemma trim_right_empty (s : string) : trim_right s = EmptyString -> all_space s = true.
Proof.
  induction s as [| c s IH]; [reflexivity |]. cbn.
  destruct (trim_right s); [| discriminate].
  destruct (is_space c); [intros _; apply IH; reflexivity | discriminate].
Qed.

Lemma all_space_starts (s : string) :
  all_space s = true -> starts_nonspace s = true -> s = EmptyString.
Proof.
  destruct s as [| c s]; [reflexivity |]. cbn.
  destruct (is_space c); discriminate.
Qed.

Lemma all_space_trim_left (s : string) : all_space (trim_left s) = true -> all_space s = true.
Proof.
  induction s as [| c s IH]; [reflexivity |]. cbn.
  destruct (is_space c) eqn:Hc; [exact IH |]. cbn. rewrite Hc. discriminate.
Qed.

(** [TrimSpace] is empty exactly on blank strings. *)
Lemma TrimSpace_empty (s : string) : TrimSpace s = EmptyString <-> all_space s = true.
Proof.
  split.
  - intros He. apply all_space_trim_left. apply trim_right_empty, He.
  - intros Hs. unfold TrimSpace. rewrite (trim_left_all_space s Hs). reflexivity.
Qed.

(** A trimmed string does not end in white space: it is not something
    followed by one white-space character or more. *)
Lemma TrimSpace_no_trailing (s front ws : string) (c : ascii) :
  TrimSpace s = (front ++ String c ws)%string ->
  is_space c = true -> all_space ws = true -> False.
Proof.
  intros Heq Hc Hws.
  assert (Hfix : trim_right (TrimSpace s) = TrimSpace s) by apply trim_right_idem.
  rewrite Heq in Hfix.
  rewrite trim_right_app_space in Hfix by (cbn; rewrite Hc, Hws; reflexivity).
  assert (Hlen : (String.length (trim_right front) <= String.length front)%nat).
  { clear. induction front as [| d f IH]; [cbn; lia |]. cbn.
    destruct (trim_right f); [destruct (is_space d); cbn in *; lia | cbn in *; lia]. }
  rewrite Hfix in Hlen.
  assert (Happ : forall a b, String.length (a ++ b)%string
                             = (String.length a + String.length b)%nat).
  { clear. intros a b. induction a as [| d a IH]; [reflexivity |].
    change (String d a ++ b)%string with (String d (a ++ b)%string). cbn. rewrite IH.
    reflexivity. }
  rewrite Happ in Hlen. cbn in Hlen. lia.
Qed.

End TrimFacts.

(** *** [extractToken] *)

Module ExtractToken.
Import GoStrings GoStringsMore GoStringsFacts TrimFacts middleware auth.

Definition authorization (c : Request) : string := TrimSpace (GetHeader c AuthorizationHeader).
Definition x_token (c : Request) : string := TrimSpace (GetHeader c XTokenHeader).

Lemma is_empty_spec (s : string) : middleware.is_empty s = true <-> s = EmptyString.
Proof. apply String.eqb_eq. Qed.

(** After ["Bearer "] a trimmed header has a token that is not blank. *)
Lemma bearer_token_not_blank (c : Request) (rest : string) :
  strip_prefix BearerPrefix (authorization c) = Some rest ->
  TrimSpace rest <> EmptyString.
Proof.
  intros Hp Hblank. apply DecimalFacts.strip_prefix_inv in Hp.
  apply TrimSpace_empty in Hblank.
  apply (TrimSpace_no_trailing (GetHeader c AuthorizationHeader) "Bearer" rest " ");
    [exact Hp | reflexivity | exact Hblank].
Qed.

(** The token [extractToken] returns, as a function of the two headers. *)
Lemma extractToken_cases (c : Request) :
  match strip_prefix BearerPrefix (authorization c) with
  | Some rest =>
      extractToken c = (TrimSpace rest, None) /\ TrimSpace rest <> EmptyString
  | None =>
      if middleware.is_empty (x_token c)
      then extractToken c
           = (EmptyString,
              Some (if middleware.is_empty (authorization c)
                    then errcode.ErrTokenMissing else errcode.ErrTokenInvalid))
      else extractToken c = (x_token c, None)
  end.
Proof.
  unfold extractToken. fold (authorization c). fold (x_token c).
  unfold HasPrefix, TrimPrefix.
  destruct (strip_prefix BearerPrefix (authorization c)) as [rest |] eqn:Hp.
  - pose proof (bearer_token_not_blank c rest Hp) as Hnb.
    assert (Hauth : middleware.is_empty (authorization c) = false).
    { apply not_true_iff_false. rewrite is_empty_spec. intros He.
      rewrite He in Hp. discriminate. }
    rewrite Hauth. cbn [negb].
    assert (Htok : middleware.is_empty (TrimSpace rest) = false)
      by (apply not_true_iff_false; rewrite is_empty_spec; exact Hnb).
    rewrite Htok. split; [reflexivity | exact Hnb].
  - destruct (middleware.is_empty (authorization c)); cbn [negb];
      destruct (middleware.is_empty (x_token c)); reflexivity.
Qed.

Lemma extractToken_nonempty (c : Request) (token : string) :
  extractToken c = (token, None) -> token <> EmptyString.
Proof.
  intros Hok. pose proof (extractToken_cases c) as Hc.
  destruct (strip_prefix BearerPrefix (authorization c)) as [rest |].
  - destruct Hc as [Hc Hnb]. rewrite Hc in Hok. injection Hok as <-. exact Hnb.
  - destruct (middleware.is_empty (x_token c)) eqn:Hx; rewrite Hc in Hok;
      [discriminate |].
    injection Hok as <-. intros He. rewrite He in Hx. discriminate.
Qed.



End ExtractToken.

Module ExtractTokenMore.
Import GoStrings GoStringsMore GoStringsFacts TrimFacts middleware auth ExtractToken.


Definition with_headers (headers : list (string * string)) : Request :=
  {| Header := list_to_map headers; Method := "GET";
     Path := "/conversation/list"; Body := EmptyString |}.


(** ["Bearer"] with nothing after it is not a bearer header: the request
    is answered "token invalid", or served with its [X-Token]. *)
Example bare_bearer :
  extractToken (with_headers [("Authorization", "Bearer ")])
    = (EmptyString, Some errcode.ErrTokenInvalid) /\
  extractToken (with_headers [("Authorization", "Bearer "); ("X-Token", "t1")])
    = ("t1", None) /\
  extractToken (with_headers []) = (EmptyString, Some errcode.ErrTokenMissing).
Proof. repeat split. Qed.

End ExtractTokenMore.

(** *** The middleware and the request context *)

Module MiddlewareFlow.
Import GoStrings GoStringsMore GoStringsFacts TrimFacts middleware auth ExtractToken.

Lemma get_after_set (store : gmap string CtxValue) (u : string) (p : Z) :
  GetUserId (<[PlatformIdKey := VInt p]> (<[UserIdKey := VString u]> store)) = Returns u /\
  GetPlatformId (<[PlatformIdKey := VInt p]> (<[UserIdKey := VString u]> store)) = Returns p.
Proof.
  unfold GetUserId, GetPlatformId. split.
  - rewrite lookup_insert_ne by discriminate. rewrite lookup_insert_eq. reflexivity.
  - rewrite lookup_insert_eq. reflexivity.
Qed.

Section Tokens.

Context `{jwt.Lib}.
Variable parse : string -> option jwt.Claims * goerror.

(** The test bypass is not taken. *)
Definition no_bypass (infraEnv TEST : string) (c : Request) : Prop :=
  isTestEnv infraEnv TEST = false \/ GetHeader c IgnoreAuthHeader = EmptyString.

Lemma no_bypass_guard (infraEnv TEST : string) (c : Request) :
  no_bypass infraEnv TEST c ->
  isTestEnv infraEnv TEST && negb (middleware.is_empty (GetHeader c IgnoreAuthHeader)) = false.
Proof.
  intros [Ht | Hh]; [rewrite Ht; reflexivity |].
  rewrite Hh. apply andb_false_r.
Qed.

(** When [JWTAuth] lets a request through (not by the test bypass), the
    token of the request parsed to claims, and the handlers read back the
    claims' user id and platform id from the request context, without a
    panic; everything else in the context is as it was. *)
Theorem JWTAuth_passes (infraEnv TEST : string) (c : Request)
    (store store' : gmap string CtxValue) :
  no_bypass infraEnv TEST c ->
  JWTAuth parse infraEnv TEST c store = Returns (Next store') ->
  exists token claims,
    extractToken c = (token, None) /\
    token <> EmptyString /\
    parse token = (Some claims, None) /\
    GetUserId store' = Returns (jwt.UserId claims) /\
    GetPlatformId store' = Returns (jwt.PlatformId claims) /\
    (forall key, key <> UserIdKey -> key <> PlatformIdKey -> store' !! key = store !! key).
Proof.
  intros Hnb. unfold JWTAuth. rewrite (no_bypass_guard _ _ _ Hnb).
  destruct (extractToken c) as [token [e |]] eqn:Htok.
  - destruct e; discriminate.
  - destruct (parse token) as [[claims |] [e |]] eqn:Hparse; try discriminate.
    intros [= <-]. exists token, claims.
    split; [first [exact Htok | reflexivity] |].
    split; [apply (extractToken_nonempty c token Htok) |].
    split; [first [exact Hparse | reflexivity] |].
    destruct (get_after_set store (jwt.UserId claims) (jwt.PlatformId claims)) as [Hu Hp].
    split; [exact Hu |]. split; [exact Hp |].
    intros key Hk1 Hk2. rewrite !lookup_insert_ne by congruence. reflexivity.
Qed.


End Tokens.

End MiddlewareFlow.

Module InternalFlow.
Import GoStrings GoStringsMore GoStringsFacts TrimFacts config crypto middleware auth InternalAuth.



Section Flow.

Context `{Hash}.




End Flow.



End InternalFlow.

(** *** Strings without white space *)

Module NoSpace.
Import GoStrings GoStringsMore GoStringsFacts TrimFacts crypto.









Lemma hex_nonempty (bytes : string) :
  bytes <> EmptyString -> hex_EncodeToString bytes <> EmptyString.
Proof. destruct bytes; [contradiction | discriminate]. Qed.

End NoSpace.

(** *** The signature, the case of the method, and padded headers *)

Module SignatureFacts.
Import GoStrings GoStringsMore GoStringsFacts TrimFacts config crypto middleware InternalAuth.

Lemma upper_lower_char (c : ascii) : upper_char (lower_char c) = upper_char c.
Proof. destruct c as [[] [] [] [] [] [] [] []]; reflexivity. Qed.

Lemma ToUpper_ToLower (s : string) : ToUpper (ToLower s) = ToUpper s.
Proof.
  unfold ToUpper, ToLower. induction s as [| c s IH]; [reflexivity |].
  cbn. rewrite upper_lower_char, IH. reflexivity.
Qed.

Lemma EqualFold_ToUpper (a b : string) : EqualFold a b = true -> ToUpper a = ToUpper b.
Proof.
  intros Hf. apply EqualFold_ToLower in Hf.
  rewrite <- (ToUpper_ToLower a), <- (ToUpper_ToLower b), Hf. reflexivity.
Qed.


(** The signature does not depend on the case of the method. *)
Lemma sign_method_fold `{Hash} (secret serviceName timestamp method method' path body : string) :
  EqualFold method method' = true ->
  signInternalRequest secret serviceName timestamp method path body
  = signInternalRequest secret serviceName timestamp method' path body.
Proof.
  intros Hf. unfold signInternalRequest. rewrite (EqualFold_ToUpper _ _ Hf). reflexivity.
Qed.


End SignatureFacts.

(** *** The SDK client and the server's middleware *)

Module ClientServer.
Import GoStrings GoStringsMore GoStringsFacts TrimFacts NoSpace.
Import config crypto middleware InternalAuth ExtractToken.




Section Sent.

Context `{Hash}.

Variable c : client.Client.
Variable now : Z.
Variable header0 : gmap string string.
Variables method path body : string.
Variable reqOpts : option client.requestOptions.

Let header : gmap string string :=
  client.applyAuthHeaders c now header0 method path body reqOpts.






End Sent.










End ClientServer.

(** *** Tokens, the test bypass and the handlers behind [JWTAuth] *)

Module SessionFixtures.
Import config middleware auth.

(** A JWT library whose registered claims carry nothing. *)
Definition session_lib : jwt.Lib :=
  {| jwt.RegisteredClaims := unit; jwt.Issuer := fun _ => "nexo" |}.

Definition session (userId : string) (platformId : Z) : @jwt.Claims session_lib :=
  @jwt.Build_Claims session_lib userId platformId tt.

(** ["tok-alice"] is Alice's native token, ["ext-bob"] Bob's external one. *)
Definition native_tokens (tokenString secret : string)
  : option (@jwt.Claims session_lib) * goerror :=
  if String.eqb tokenString "tok-alice" && String.eqb secret "jwt-secret"
  then (Some (session "alice" 2), None)
  else (None, Some errcode.ErrTokenInvalid).

Definition external_tokens (tokenString secret role : string) (platformId : Z)
  : option (@jwt.Claims session_lib) * goerror :=
  if String.eqb tokenString "ext-bob" && String.eqb secret "ext-secret"
  then (Some (session "bob" platformId), None)
  else (None, Some errcode.ErrTokenInvalid).

Definition server_config (external : bool) (allowed : list string) : Config :=
  {| config.InternalAuth :=
       {| Enabled := true; Secret := "s3cret";
          AllowedServices := allowed; MaxSkewSeconds := 300 |};
     JWT := {| JWT_Secret := "jwt-secret" |};
     ExternalJWT :=
       {| ExternalJWT_Enabled := external; ExternalJWT_Secret := "ext-secret";
          DefaultRole := "user"; DefaultPlatformId := 5 |} |}.

Definition parse (cfg : option Config) (tokenString : string)
  : option (@jwt.Claims session_lib) * goerror :=
  @jwt.ParseTokenWithFallback session_lib native_tokens external_tokens tokenString cfg.

Definition bearer (tokenString : string) : Request :=
  ExtractTokenMore.with_headers [("Authorization", "Bearer " ++ tokenString)].

End SessionFixtures.

Module SessionFacts.
Import GoStrings GoStringsMore GoStringsFacts TrimFacts config middleware auth.
Import ExtractToken MiddlewareFlow SessionFixtures.

Lemma JWTAuth_passes_witness :
  exists store',
    @JWTAuth session_lib (parse (Some (server_config false []))) "prod" "test"
      (bearer "tok-alice") ∅ = Returns (Next store') /\
    GetUserId store' = Returns "alice" /\
    GetPlatformId store' = Returns 2.
Proof.
  exists (<[PlatformIdKey := VInt 2]> (<[UserIdKey := VString "alice"]> ∅)).
  assert (Hrun : @JWTAuth session_lib (parse (Some (server_config false []))) "prod" "test"
                   (bearer "tok-alice") ∅
                 = Returns (Next (<[PlatformIdKey := VInt 2]>
                                    (<[UserIdKey := VString "alice"]> ∅))))
    by reflexivity.
  split; [exact Hrun |].
  destruct (@JWTAuth_passes session_lib (parse (Some (server_config false [])))
              "prod" "test" (bearer "tok-alice") ∅ _
              (or_introl eq_refl) Hrun)
    as (token & claims & Htok & _ & Hparse & Hu & Hp & _).
  injection Htok as <-. injection Hparse as <-. split; [exact Hu | exact Hp].
Defined.


Section Fallback.

Context `{jwt.Lib}.
Variable ParseToken : string -> string -> option jwt.Claims * goerror.
Variable ParseExternalToken : string -> string -> string -> Z -> option jwt.Claims * goerror.

Definition fallback (cfg : option Config) (tokenString : string)
  : option jwt.Claims * goerror :=
  jwt.ParseTokenWithFallback ParseToken ParseExternalToken tokenString cfg.

(** The context [JWTAuth] hands on for [claims]. *)
Definition signed_in (store : gmap string CtxValue) (claims : jwt.Claims)
  : gmap string CtxValue :=
  <[PlatformIdKey := VInt (jwt.PlatformId claims)]>
    (<[UserIdKey := VString (jwt.UserId claims)]> store).

Lemma JWTAuth_parsed (infraEnv TEST : string) (c : Request)
    (store : gmap string CtxValue) (cfg : option Config) (token : string) :
  no_bypass infraEnv TEST c ->
  extractToken c = (token, None) ->
  JWTAuth (fallback cfg) infraEnv TEST c store
  = match fallback cfg token with
    | (_, Some _) => Returns (Aborted errcode.ErrTokenInvalid)
    | (None, None) => Panics
    | (Some claims, None) => Returns (Next (signed_in store claims))
    end.
Proof.
  intros Hnb Htok. unfold JWTAuth. rewrite (no_bypass_guard _ _ _ Hnb), Htok.
  reflexivity.
Qed.

End Fallback.

(** [JWTAuth] with [ParseTokenWithFallback], for a request that carries a
    token and does not take the test bypass: without a global
    configuration every token is refused; a token that [ParseToken]
    accepts with the JWT secret signs its user in, whatever the external
    configuration; a token it refuses is refused when external tokens are
    switched off, and otherwise is what [ParseExternalToken] makes of it
    with the external secret and the default role and platform. *)
Theorem JWTAuth_fallback `{jwt.Lib}
    (ParseToken : string -> string -> option jwt.Claims * goerror)
    (ParseExternalToken : string -> string -> string -> Z -> option jwt.Claims * goerror)
    (infraEnv TEST : string) (c : Request) (store : gmap string CtxValue)
    (token : string) :
  no_bypass infraEnv TEST c ->
  extractToken c = (token, None) ->
  JWTAuth (fallback ParseToken ParseExternalToken None) infraEnv TEST c store
  = Returns (Aborted errcode.ErrTokenInvalid) /\
  forall cfg : Config,
    (forall claims,
       ParseToken token (JWT_Secret (JWT cfg)) = (Some claims, None) ->
       JWTAuth (fallback ParseToken ParseExternalToken (Some cfg)) infraEnv TEST c store
       = Returns (Next (signed_in store claims))) /\
    (snd (ParseToken token (JWT_Secret (JWT cfg))) <> None ->
     ExternalJWT_Enabled (ExternalJWT cfg) = false ->
     JWTAuth (fallback ParseToken ParseExternalToken (Some cfg)) infraEnv TEST c store
     = Returns (Aborted errcode.ErrTokenInvalid)) /\
    (snd (ParseToken token (JWT_Secret (JWT cfg))) <> None ->
     ExternalJWT_Enabled (ExternalJWT cfg) = true ->
     forall claims,
       ParseExternalToken token (ExternalJWT_Secret (ExternalJWT cfg))
         (DefaultRole (ExternalJWT cfg)) (DefaultPlatformId (ExternalJWT cfg))
       = (Some claims, None) ->
       JWTAuth (fallback ParseToken ParseExternalToken (Some cfg)) infraEnv TEST c store
       = Returns (Next (signed_in store claims))).
Proof.
  intros Hnb Htok.
  split; [rewrite (JWTAuth_parsed _ _ _ _ _ _ None token Hnb Htok); reflexivity |].
  intros cfg.
  rewrite (JWTAuth_parsed _ _ _ _ _ _ (Some cfg) token Hnb Htok).
  unfold fallback, jwt.ParseTokenWithFallback.
  destruct (ParseToken token (JWT_Secret (JWT cfg))) as [native [err |]] eqn:Hnative;
    cbn [snd].
  - split; [intros claims [=] |].
    split.
    + intros _ ->. reflexivity.
    + intros _ -> claims ->. reflexivity.
  - split; [intros claims [= ->]; reflexivity |].
    split; intros Hne; contradiction.
Qed.

Lemma JWTAuth_fallback_witness :
  @JWTAuth session_lib (parse (Some (server_config true []))) "prod" "test"
    (bearer "ext-bob") ∅
  = Returns (Next (<[PlatformIdKey := VInt 5]> (<[UserIdKey := VString "bob"]> ∅))) /\
  @JWTAuth session_lib (parse (Some (server_config false []))) "prod" "test"
    (bearer "ext-bob") ∅
  = Returns (Aborted errcode.ErrTokenInvalid).
Proof.
  destruct (@JWTAuth_fallback session_lib native_tokens external_tokens "prod" "test"
              (bearer "ext-bob") ∅ "ext-bob" (or_introl eq_refl) eq_refl)
    as [_ Hcfg].
  split.
  - destruct (Hcfg (server_config true [])) as (_ & _ & Hext).
    apply (Hext ltac:(discriminate) eq_refl (session "bob" 5) eq_refl).
  - destruct (Hcfg (server_config false [])) as (_ & Hoff & _).
    apply (Hoff ltac:(discriminate) eq_refl).
Defined.

End SessionFacts.

Module Bypass.
Import GoStrings GoStringsMore config middleware auth entity repository handler.
Import SessionFixtures.

Section Handlers.

Context `{jwt.Lib} `{Messages} {DB : Type}.
Variable parse : string -> option jwt.Claims * goerror.
Variable GetUserConversationsWithSeq : DB -> string -> list ConversationWithSeq.t * goerror.
Variable UpdateReadSeq : DB -> string -> string -> Z -> DB * goerror.
Variable convService : service.ConversationService DB.

(** What the conversation handlers answer a request without a user. *)
Definition all_unauthorized (db : DB) (c : RequestContext) : Prop :=
  (forall bound,
     handler.GetConversationList convService db c bound
     = Failure errcode.ErrUnauthorized) /\
  handler.GetMaxReadSeq convService db c = Returns (Failure errcode.ErrUnauthorized) /\
  handler.GetUnreadCount convService db c = Returns (Failure errcode.ErrUnauthorized) /\
  (forall bound,
     handler_rest.GetAllConversationList GetUserConversationsWithSeq convService db c bound
     = Failure errcode.ErrUnauthorized) /\
  handler_rest.GetConversation convService db c = Failure errcode.ErrUnauthorized /\
  (forall bound,
     handler_rest.UpdateConversation convService db c bound
     = (db, Failure errcode.ErrUnauthorized)) /\
  (forall bound,
     handler_rest.MarkRead UpdateReadSeq db c bound
     = (db, Failure errcode.ErrUnauthorized)).

(** In the test environment a request with an [Ignore-Auth] header goes
    past [JWTAuth] with its context untouched, whatever token it carries:
    no user is signed in, [GetUserId] is empty, and every conversation
    handler answers "unauthorized" and leaves the database as it is. *)
Theorem bypass_is_anonymous (infraEnv TEST : string) (c : Request)
    (store : gmap string CtxValue) :
  isTestEnv infraEnv TEST = true ->
  GetHeader c IgnoreAuthHeader <> EmptyString ->
  store !! UserIdKey = None ->
  JWTAuth parse infraEnv TEST c store = Returns (Next store) /\
  exists userId,
    GetUserId store = Returns userId /\
    forall db query, all_unauthorized db {| ctx_UserId := userId; ctx_Query := query |}.
Proof.
  intros Htest Hhdr Hnone. split.
  - unfold JWTAuth. rewrite Htest.
    apply String.eqb_neq in Hhdr. unfold middleware.is_empty. rewrite Hhdr. reflexivity.
  - exists EmptyString. split; [unfold GetUserId; rewrite Hnone; reflexivity |].
    intros db query. repeat split.
Qed.

End Handlers.

Lemma bypass_is_anonymous_witness :
  @JWTAuth session_lib (parse (Some (server_config false []))) " Test " "test"
    (ExtractTokenMore.with_headers
       [("Authorization", "Bearer tok-alice"); ("Ignore-Auth", "1")]) ∅
  = Returns (Next ∅) /\
  handler_rest.GetConversation Fixtures.mem_service Fixtures.alice_db
    (Fixtures.request EmptyString [("conversation_id", "c_a")])
  = Failure errcode.ErrUnauthorized.
Proof.
  destruct (@bypass_is_anonymous session_lib Fixtures.text_messages Fixtures.MemDB
              (parse (Some (server_config false [])))
              (fun _ _ => ([], None)) (fun db _ _ _ => (db, None)) Fixtures.mem_service
              " Test " "test"
              (ExtractTokenMore.with_headers
                 [("Authorization", "Bearer tok-alice"); ("Ignore-Auth", "1")]) ∅
              eq_refl ltac:(discriminate) eq_refl)
    as [Hrun (userId & Hu & Hall)].
  split; [exact Hrun |].
  injection Hu as <-.
  apply (Hall Fixtures.alice_db (list_to_map [("conversation_id", "c_a")])).
Defined.

End Bypass.

Module InternalWitnesses.
Import GoStrings GoStringsMore config crypto middleware auth InternalAuth.
Import InternalFlow SignatureFacts ClientServer SessionFixtures.









(** The client trims its secret and the server signs with its own as it
    is: with a blank at the end of the server's secret, not even the same
    string on both sides lets the client in. *)
Example secret_with_a_blank :
  @validateInternalRequest go_hash
    (Some {| config.InternalAuth :=
               {| Enabled := true; Secret := "s3cret ";
                  AllowedServices := []; MaxSkewSeconds := 300 |};
             JWT := {| JWT_Secret := "jwt-secret" |};
             ExternalJWT :=
               {| ExternalJWT_Enabled := false; ExternalJWT_Secret := EmptyString;
                  DefaultRole := "user"; DefaultPlatformId := 5 |} |})
    1700000100
    (@client.request go_hash (client.NewInternalClient "billing" "s3cret " [])
       1700000000 "POST" "/internal/msg/send" "{}" [] "/internal/msg/send")
  = (EmptyString, Some errcode.ErrUnauthorized).
Proof. vm_compute. reflexivity. Qed.

(** The client signs the path it was called with, query string and all,
    and the server checks the path without it: a signed request to a path
    with a query string, as the SDK's [UpdateConversation] builds it, is
    refused. *)
Example query_string_is_signed :
  @validateInternalRequest go_hash (Some (server_config false ["billing"])) 1700000100
    (@client.request go_hash (client.NewInternalClient "billing" "s3cret" [])
       1700000000 "PUT" "/internal/conversation/update?conversation_id=c_a" "{}" []
       "/internal/conversation/update")
  = (EmptyString, Some errcode.ErrUnauthorized).
Proof. vm_compute. reflexivity. Qed.

End InternalWitnesses.

(** *** The trace id *)

Module TraceFacts.
Import GoStrings GoStringsMore GoStringsFacts TrimFacts NoSpace middleware auth trace_id.











(** With nothing to go by, the id is the minted uuid without its dashes. *)
Example minted_trace_id :
  resolveTraceID "123e4567-e89b-12d3-a456-426614174000" None
    (ExtractTokenMore.with_headers []) ∅
  = "123e4567e89b12d3a456426614174000".
Proof. reflexivity. Qed.

End TraceFacts.

(** *** The bodies in the request log *)

Module LogFacts.
Import GoStrings GoStringsMore logger.

Lemma length_append (a b : string) :
  String.length (a ++ b) = (String.length a + String.length b)%nat.
Proof.
  induction a as [| c a IH]; [reflexivity |].
  change (String c a ++ b)%string with (String c (a ++ b)%string). cbn. rewrite IH.
  reflexivity.
Qed.

Lemma length_take_bytes (n : nat) (s : string) :
  (String.length (take_bytes n s) <= n)%nat.
Proof.
  revert s. induction n as [| n IH]; intros [| c s]; cbn; try lia.
  specialize (IH s). lia.
Qed.

Lemma take_bytes_all (n : nat) (s : string) :
  (String.length s <= n)%nat -> take_bytes n s = s.
Proof.
  revert s. induction n as [| n IH]; intros [| c s]; cbn; try reflexivity; try lia.
  intros Hn. rewrite IH by lia. reflexivity.
Qed.

Lemma take_bytes_app (n : nat) (a b : string) :
  String.length a = n -> take_bytes n (a ++ b) = a.
Proof.
  revert a. induction n as [| n IH]; intros [| c a]; cbn; try discriminate.
  - intros _. destruct b; reflexivity.
  - intros [= Hn]. change (String c a ++ b)%string with (String c (a ++ b)%string).
    cbn. rewrite IH by exact Hn. reflexivity.
Qed.

Lemma length_take_bytes_eq (n : nat) (s : string) :
  (n <= String.length s)%nat -> String.length (take_bytes n s) = n.
Proof.
  revert s. induction n as [| n IH]; intros [| c s]; cbn; try reflexivity; try lia.
  intros Hn. rewrite IH by lia. reflexivity.
Qed.

Lemma length_format_digits (fuel : nat) (n : Z) (acc : string) :
  (String.length (format_digits fuel n acc) <= fuel + String.length acc)%nat.
Proof.
  revert n acc. induction fuel as [| fuel IH]; intros n acc; cbn [format_digits]; [lia |].
  destruct (n <? 10); [cbn; lia |].
  specialize (IH (n / 10) (String (digit_char (n mod 10)) acc)). cbn in IH. lia.
Qed.

(** What the log shows of a body is never empty and never longer than
    2090 bytes; a body of at most 2048 bytes that is not skipped is shown
    as it is (["-"] when it is empty), a longer one by its first 2048
    bytes, followed by a note that gives its length. *)
Theorem formatBody_bounded (body : string) (skip : bool) :
  formatBody body skip <> EmptyString /\
  (String.length (formatBody body skip) <= 2090)%nat /\
  (skip = true \/ body = EmptyString -> formatBody body skip = "-") /\
  (body <> EmptyString -> (String.length body <= 2048)%nat ->
   formatBody body false = body) /\
  ((2048 < String.length body)%nat ->
   take_bytes 2048 (formatBody body false) = take_bytes 2048 body /\
   exists note,
     formatBody body false = (take_bytes 2048 body ++ note)%string /\
     TrimPrefix note "...(truncated,total=" = (FormatInt (len body) ++ "B)")%string).
Proof.
  unfold formatBody, len, maxLogBodyBytes.
  assert (Hnote : (String.length (FormatInt (Z.of_nat (String.length body))) <= 20)%nat).
  { unfold FormatInt. destruct (Z.ltb_spec (Z.of_nat (String.length body)) 0); [lia |].
    unfold FormatUint.
    pose proof (length_format_digits 20 (Z.of_nat (String.length body)) EmptyString) as Hl.
    change (String.length EmptyString) with 0%nat in Hl. lia. }
  split; [| split; [| split; [| split]]].
  - destruct skip; cbn [orb]; [discriminate |].
    destruct (Z.eqb_spec (Z.of_nat (String.length body)) 0); [discriminate |].
    destruct (Z.leb_spec (Z.of_nat (String.length body)) 2048).
    + destruct body; [cbn in *; lia | discriminate].
    + destruct body as [| c body]; [cbn in *; lia |].
      change (Z.to_nat 2048) with (S 2047). cbn [take_bytes]. discriminate.
  - destruct skip; cbn [orb]; [cbn; lia |].
    destruct (Z.eqb_spec (Z.of_nat (String.length body)) 0); [cbn; lia |].
    destruct (Z.leb_spec (Z.of_nat (String.length body)) 2048); [lia |].
    rewrite !length_append.
    pose proof (length_take_bytes (Z.to_nat 2048) body) as Ht.
    change (String.length "...(truncated,total=") with 20%nat.
    change (String.length "B)") with 2%nat. lia.
  - intros [-> | ->]; [reflexivity |]. destruct skip; reflexivity.
  - intros Hne Hlen. cbn [orb].
    destruct (Z.eqb_spec (Z.of_nat (String.length body)) 0) as [Hz | _].
    + destruct body; [contradiction | cbn in Hz; lia].
    + destruct (Z.leb_spec (Z.of_nat (String.length body)) 2048); [reflexivity | lia].
  - intros Hlen. cbn [orb].
    destruct (Z.eqb_spec (Z.of_nat (String.length body)) 0); [lia |].
    destruct (Z.leb_spec (Z.of_nat (String.length body)) 2048); [lia |].
    split.
    + change (Z.to_nat 2048) with 2048%nat.
      rewrite take_bytes_app; [reflexivity |].
      apply length_take_bytes_eq. lia.
    + eexists. split; [reflexivity |].
      unfold TrimPrefix. rewrite DecimalFacts.strip_prefix_app. reflexivity.
Qed.

End LogFacts.

(** *** The conversation service and its handlers, beyond the claims *)

Module ConversationFacts.
Import entity repository service handler.

Section Rows.

Context `{Messages} {DB : Type}.

(** One step of the loop of [buildConversationInfos] that collects the
    sequence numbers to fetch. *)
Definition collect (m : gmap string Z) (conv : ConversationWithSeq.t) : gmap string Z :=
  if 0 <? ConversationWithSeq.MaxSeq conv
  then <[ConversationWithSeq.ConversationId conv := ConversationWithSeq.MaxSeq conv]> m
  else m.

Lemma collect_sound (rows : list ConversationWithSeq.t) (m0 : gmap string Z)
    (id : string) (v : Z) :
  fold_left collect rows m0 !! id = Some v ->
  m0 !! id = Some v \/
  (0 < v /\ exists row, In row rows /\ ConversationWithSeq.ConversationId row = id /\
                        ConversationWithSeq.MaxSeq row = v).
Proof.
  revert m0. induction rows as [| row rows IH]; intros m0; cbn [fold_left]; [auto |].
  intros Hl. destruct (IH _ Hl) as [Hm | (Hv & r & Hin & Hid & Hmax)].
  - unfold collect in Hm. destruct (Z.ltb_spec 0 (ConversationWithSeq.MaxSeq row)); [| auto].
    destruct (decide (ConversationWithSeq.ConversationId row = id)) as [He | Hne].
    + rewrite He, lookup_insert_eq in Hm. injection Hm as <-.
      right. split; [assumption |]. exists row. cbn. auto.
    + rewrite lookup_insert_ne in Hm by exact Hne. auto.
  - right. split; [exact Hv |]. exists r. cbn. auto.
Qed.

Lemma collect_untouched (rows : list ConversationWithSeq.t) (m0 : gmap string Z)
    (id : string) :
  (forall r, In r rows -> ConversationWithSeq.ConversationId r = id ->
             ConversationWithSeq.MaxSeq r <= 0) ->
  fold_left collect rows m0 !! id = m0 !! id.
Proof.
  revert m0. induction rows as [| row rows IH]; intros m0 Hno; cbn [fold_left];
    [reflexivity |].
  rewrite IH by (intros r Hin; apply Hno; right; exact Hin).
  unfold collect. destruct (Z.ltb_spec 0 (ConversationWithSeq.MaxSeq row)); [| reflexivity].
  destruct (decide (ConversationWithSeq.ConversationId row = id)) as [He | Hne].
  - specialize (Hno row (or_introl eq_refl) He). lia.
  - apply lookup_insert_ne. exact Hne.
Qed.

(** The sequence numbers [buildConversationInfos] asks the message
    repository for: a conversation is asked for only with a positive
    [max_seq], that of one of its rows; it is asked for with the
    [max_seq] of its last row that has a positive one; so a conversation
    without messages is not asked for. *)
Theorem convMaxSeq_of_spec (rows : list ConversationWithSeq.t) :
  (forall id v,
     convMaxSeq_of rows !! id = Some v ->
     0 < v /\
     exists row, In row rows /\ ConversationWithSeq.ConversationId row = id /\
                 ConversationWithSeq.MaxSeq row = v) /\
  (forall pre row post,
     rows = (pre ++ row :: post)%list ->
     0 < ConversationWithSeq.MaxSeq row ->
     (forall r, In r post ->
                ConversationWithSeq.ConversationId r = ConversationWithSeq.ConversationId row ->
                ConversationWithSeq.MaxSeq r <= 0) ->
     convMaxSeq_of rows !! ConversationWithSeq.ConversationId row
     = Some (ConversationWithSeq.MaxSeq row)) /\
  (forall id,
     (forall r, In r rows -> ConversationWithSeq.ConversationId r = id ->
                ConversationWithSeq.MaxSeq r <= 0) ->
     convMaxSeq_of rows !! id = None).
Proof.
  change (convMaxSeq_of rows) with (fold_left collect rows ∅).
  split; [| split].
  - intros id v Hl. destruct (collect_sound rows ∅ id v Hl) as [He | Hr]; [| exact Hr].
    rewrite lookup_empty in He. discriminate.
  - intros pre row post -> Hpos Hlast.
    rewrite fold_left_app. cbn [fold_left].
    rewrite (collect_untouched post _ _ Hlast).
    unfold collect at 1. destruct (Z.ltb_spec 0 (ConversationWithSeq.MaxSeq row)); [| lia].
    apply lookup_insert_eq.
  - intros id Hno. rewrite (collect_untouched rows ∅ id Hno). apply lookup_empty.
Qed.

Variable s : ConversationService DB.
Variable db : DB.

(** The sequence repository has no row for the conversation of the
    request, and reports no error. *)
Definition seq_row_missing (c : RequestContext) : Prop :=
  ctx_UserId c <> EmptyString /\
  Query c "conversation_id" <> EmptyString /\
  GetConversationSeqInfo (seqRepo s) db (Query c "conversation_id") = (None, None).

Lemma is_empty_iff (x : string) : is_empty x = false <-> x <> EmptyString.
Proof. unfold is_empty. apply String.eqb_neq. Qed.

(** [GetMaxReadSeq] and [GetUnreadCount] panic in one case and no other:
    for a signed-in user and a conversation id, when the sequence
    repository returns neither a row nor an error, which is how
    [GetConversation] reads a conversation without messages and answers
    with [max_seq] 0. *)
Theorem seq_row_missing_panics (c : RequestContext) :
  (handler.GetMaxReadSeq s db c = Panics <-> seq_row_missing c) /\
  (handler.GetUnreadCount s db c = Panics <-> seq_row_missing c) /\
  (seq_row_missing c ->
   forall conv,
     GetByOwnerAndConvId (convRepo s) db (ctx_UserId c) (Query c "conversation_id")
     = (Some conv, None) ->
     exists info,
       handler_rest.GetConversation s db c = Success (Some info) /\
       ConversationInfo.MaxSeq info = 0).
Proof.
  unfold seq_row_missing, handler.GetMaxReadSeq, handler.GetUnreadCount,
    handler_rest.GetConversation, service.GetMaxReadSeq, service.GetConversation.
  destruct (is_empty (ctx_UserId c)) eqn:Hu.
  { apply String.eqb_eq in Hu.
    repeat split; try discriminate; try (intros (Hne & _); contradiction). }
  destruct (is_empty (Query c "conversation_id")) eqn:Hq.
  { apply String.eqb_eq in Hq.
    repeat split; try discriminate; try (intros (_ & Hne & _); contradiction). }
  apply is_empty_iff in Hu, Hq.
  destruct (GetConversationSeqInfo (seqRepo s) db (Query c "conversation_id"))
    as [[sc |] [e |]] eqn:Hseq;
    (split; [| split]);
    try (split; [discriminate | intros (_ & _ & [=])]);
    try (split; [intros _; auto | reflexivity]);
    try (intros (_ & _ & [=]); fail).
  intros _ conv Hconv. rewrite Hconv. eexists. split; reflexivity.
Qed.

End Rows.

Lemma seq_row_missing_panics_example :
  handler.GetMaxReadSeq Fixtures.mem_service Fixtures.alice_db
    (Fixtures.request "alice" [("conversation_id", "c_new")]) = Panics /\
  handler.GetUnreadCount Fixtures.mem_service Fixtures.alice_db
    (Fixtures.request "alice" [("conversation_id", "c_new")]) = Panics.
Proof. split; reflexivity. Qed.

End ConversationFacts.

(** *** The SDK: actor ids in bulk, and the unread count *)

Module SdkFacts.
Import common sdk entity repository service handler.

Section Actors.

Variable toIMUserId : Actor -> string * goerror.

Lemma append_loop {A B : Type} (f : A -> B) (l : list A) (acc : list B) :
  fold_left (fun ret x => (ret ++ [f x])%list) l acc = (acc ++ (f <$> l))%list.
Proof.
  revert acc. induction l as [| x l IH]; intros acc; cbn [fold_left fmap list_fmap].
  - rewrite app_nil_r. reflexivity.
  - rewrite IH, <- app_assoc. reflexivity.
Qed.

(** [MGetUserActorUserIds] and [MGetAgentActorUserIds] answer with one id
    for each id given, in the order given: that of [GetUserActorUserId]
    (of [GetAgentActorUserId]) for that id; an id that cannot be
    converted is in the answer as the empty string the single conversion
    returns for it, not left out. *)
Theorem MGet_actor_user_ids (ids : list Z) :
  MGetUserActorUserIds toIMUserId ids = GetUserActorUserId toIMUserId <$> ids /\
  MGetAgentActorUserIds toIMUserId ids = GetAgentActorUserId toIMUserId <$> ids /\
  length (MGetUserActorUserIds toIMUserId ids) = length ids /\
  length (MGetAgentActorUserIds toIMUserId ids) = length ids /\
  (forall i id,
     ids !! i = Some id ->
     MGetUserActorUserIds toIMUserId ids !! i = Some (GetUserActorUserId toIMUserId id) /\
     MGetAgentActorUserIds toIMUserId ids !! i = Some (GetAgentActorUserId toIMUserId id)).
Proof.
  unfold MGetUserActorUserIds, MGetAgentActorUserIds. rewrite !append_loop. cbn [app].
  rewrite !length_fmap.
  split; [reflexivity |]. split; [reflexivity |].
  split; [reflexivity |]. split; [reflexivity |].
  intros i id Hi. rewrite !list_lookup_fmap, Hi. split; reflexivity.
Qed.

End Actors.

Section Unread.

Context `{Messages} {DB : Type}.
Variable s : ConversationService DB.
Variable db : DB.

(** The request of the SDK's [GetUnreadCount] as the handler sees it,
    for the user the middleware signed in. *)
Definition unread_request (userId conversationId : string) (readSeq : Z) : RequestContext :=
  {| ctx_UserId := userId;
     ctx_Query := client.GetUnreadCount conversationId readSeq |}.

(** The SDK's [GetUnreadCount] and the handler that serves it: with a
    positive [readSeq] the count is taken from that [readSeq], which the
    handler reads back as the client wrote it; with zero or a negative
    [readSeq] the client sends none and the count is taken from the read
    position the server has stored. *)
Theorem client_unread_count (userId conversationId : string) (readSeq : Z)
    (sc : SeqConversation.t) :
  userId <> EmptyString ->
  conversationId <> EmptyString ->
  Int64.fits readSeq ->
  GetConversationSeqInfo (seqRepo s) db conversationId = (Some sc, None) ->
  handler.GetUnreadCount s db (unread_request userId conversationId readSeq)
  = Returns
      (Success
         {["unread_count" :=
             unread_count (SeqConversation.MaxSeq sc)
               (if 0 <? readSeq then readSeq
                else UnreadCount.stored_read_seq s db userId conversationId)]}).
Proof.
  intros Hu Hc Hfit Hseq.
  assert (Hq : Query (unread_request userId conversationId readSeq) "conversation_id"
               = conversationId).
  { unfold Query, unread_request, client.GetUnreadCount. cbn [ctx_Query].
    destruct (0 <? readSeq).
    - rewrite lookup_insert_ne by discriminate. rewrite lookup_singleton_eq. reflexivity.
    - rewrite lookup_singleton_eq. reflexivity. }
  assert (Hr : fst (GoStrings.ParseInt
                      (Query (unread_request userId conversationId readSeq) "read_seq"))
               = if 0 <? readSeq then readSeq else 0).
  { unfold Query, unread_request, client.GetUnreadCount. cbn [ctx_Query].
    destruct (0 <? readSeq).
    - rewrite lookup_insert_eq. cbn [from_option id].
      rewrite (DecimalFacts.ParseInt_FormatInt readSeq Hfit). reflexivity.
    - rewrite lookup_singleton_ne by discriminate. reflexivity. }
  unfold handler.GetUnreadCount. rewrite Hq, Hr.
  cbn [ctx_UserId unread_request].
  rewrite (UnreadCount.nonempty_is_empty _ Hu), (UnreadCount.nonempty_is_empty _ Hc).
  rewrite (UnreadCount.service_GetMaxReadSeq_returns s db _ _ sc Hseq).
  unfold UnreadCount.stored_max_seq. rewrite Hseq. cbn [fst].
  destruct (Z.ltb_spec 0 readSeq) as [Hpos | Hle].
  - destruct (Z.eqb_spec readSeq 0); [lia | reflexivity].
  - reflexivity.
Qed.

End Unread.

Lemma client_unread_count_witness :
  handler.GetUnreadCount Fixtures.mem_service Fixtures.alice_db
    (unread_request "alice" "c_a" 8)
  = Returns (Success {["unread_count" := 2]}) /\
  handler.GetUnreadCount Fixtures.mem_service Fixtures.alice_db
    (unread_request "alice" "c_a" (-3))
  = Returns (Success {["unread_count" := 5]}).
Proof.
  split.
  - apply (client_unread_count Fixtures.mem_service Fixtures.alice_db "alice" "c_a" 8
             (SeqConversation.mk 10));
      [discriminate | discriminate | vm_compute; intuition discriminate | reflexivity].
  - apply (client_unread_count Fixtures.mem_service Fixtures.alice_db "alice" "c_a" (-3)
             (SeqConversation.mk 10));
      [discriminate | discriminate | vm_compute; intuition discriminate | reflexivity].
Defined.

End SdkFacts.

(** *** The order of the frames on a connection *)

Module ConnOrder.
Import gateway ConnFacts.

(** The frame [WriteMessage] takes when event [e] happens to [c]. *)
Definition accepts (c : WebsocketClientConn) (e : Event) : list string :=
  match e with
  | EvWriteMessage data =>
      match WriteMessage c data with
      | Returns (_, None) => [data]
      | _ => []
      end
  | _ => []
  end.

(** The frames [WriteMessage] has taken (returned nil for) in a run, in
    the order of the calls. *)
Fixpoint accepted (c : WebsocketClientConn) (events : list Event) : list string :=
  match events with
  | [] => []
  | e :: rest =>
      (accepts c e
       ++ match step c e with
          | Returns c' => accepted c' rest
          | Panics => []
          end)%list
  end.

(** The payloads of the data frames among the frames written. *)
Definition binary_frames (frames : list Frame) : list string :=
  flat_map (fun f => match f with BinaryMessage data => [data] | _ => [] end) frames.

Lemma binary_frames_app (a b : list Frame) :
  binary_frames (a ++ b) = (binary_frames a ++ binary_frames b)%list.
Proof. apply flat_map_app. Qed.

(** How a connection stands to the frames [hist] it has taken so far. *)
Record Order (c : WebsocketClientConn) (hist : list string) : Prop := {
  ord_split :
    exists lost,
      hist = (binary_frames (conn_written c) ++ lost ++ writeChan c)%list /\
      (length lost <= 1)%nat /\
      (loopRunning c = true -> lost = []);
  ord_close :
    In CloseMessage (conn_written c) ->
    loopRunning c = false /\ closed c = true /\ writeChan c = [] /\
    hist = binary_frames (conn_written c) /\
    exists pre, conn_written c = (pre ++ [CloseMessage])%list /\ ~ In CloseMessage pre
}.

Lemma Order_new : Order NewWebSocketClientConn [].
Proof.
  split; cbn.
  - exists []. auto.
  - intros [].
Qed.

Lemma Order_write (c : WebsocketClientConn) (hist : list string) (data : string) (c' : WebsocketClientConn) :
  Inv c -> Order c hist ->
  step c (EvWriteMessage data) = Returns c' ->
  Order c' (hist ++ accepts c (EvWriteMessage data)).
Proof.
  intros HI [(lost & Hh & Hl & Hrun) Hclose]. cbn [step accepts].
  destruct (WriteMessage_cases c data HI)
    as [(_ & ->) | [(Hopen & _ & ->) | (_ & _ & ->)]]; intros [= <-];
    rewrite ?app_nil_r.
  - split; [exists lost; auto | exact Hclose].
  - split.
    + exists lost. cbn. rewrite Hh, <- !app_assoc. auto.
    + cbn. intros Hin. destruct (Hclose Hin) as (_ & Hc & _). congruence.
  - split; [exists lost; auto | exact Hclose].
Qed.

Lemma Order_close (c : WebsocketClientConn) (hist : list string) (c' : WebsocketClientConn) :
  Inv c -> Order c hist -> step c EvClose = Returns c' -> Order c' hist.
Proof.
  intros HI [(lost & Hh & Hl & Hrun) Hclose]. cbn [step]. unfold Close.
  destruct (closeOnce c) eqn:Ho.
  - intros [= <-]. split; [exists lost; auto | exact Hclose].
  - rewrite (inv_writeChan c HI), (inv_closeChan c HI), Ho. cbn [orb].
    intros [= <-]. split; cbn.
    + exists lost. auto.
    + intros Hin. destruct (Hclose Hin) as (Hr & _ & Hq & Hb & Hpre). auto.
Qed.

Lemma binary_frames_close (frames : list Frame) :
  binary_frames (frames ++ [CloseMessage]) = binary_frames frames.
Proof. rewrite binary_frames_app. apply app_nil_r. Qed.

Lemma binary_frames_ping (frames : list Frame) :
  binary_frames (frames ++ [PingMessage]) = binary_frames frames.
Proof. rewrite binary_frames_app. apply app_nil_r. Qed.

Lemma binary_frames_data (frames : list Frame) (data : string) :
  binary_frames (frames ++ [BinaryMessage data]) = (binary_frames frames ++ [data])%list.
Proof. apply binary_frames_app. Qed.

Lemma in_snoc_other (frames : list Frame) (f : Frame) :
  f <> CloseMessage -> In CloseMessage (frames ++ [f]) -> In CloseMessage frames.
Proof.
  intros Hf Hin. apply in_app_iff in Hin. destruct Hin as [Hin | [He | []]];
    [exact Hin | contradiction].
Qed.

(** A connection whose write loop runs has written no close frame. *)
Lemma Order_running (c : WebsocketClientConn) (hist : list string) :
  Order c hist -> loopRunning c = true ->
  hist = (binary_frames (conn_written c) ++ writeChan c)%list /\
  ~ In CloseMessage (conn_written c).
Proof.
  intros [(lost & Hh & _ & Hrun) Hclose] Hr. split.
  - rewrite (Hrun Hr) in Hh. exact Hh.
  - intros Hin. destruct (Hclose Hin) as (Hf & _). congruence.
Qed.

Lemma Order_loop (c : WebsocketClientConn) (hist : list string) (choice : LoopChoice) :
  Inv c -> Order c hist -> Order (writeLoop_step c choice) hist.
Proof.
  intros HI HO. unfold writeLoop_step.
  destruct (loopRunning c) eqn:Hr; cbn [negb]; [| exact HO].
  destruct (Order_running c hist HO Hr) as [Hh Hnc]. clear HO.
  destruct choice as [wrote | wrote |].
  - destruct (writeChan c) as [| message queue] eqn:Hq.
    + rewrite app_nil_r in Hh.
      destruct (writeChanClosed c) eqn:Hwc.
      * assert (Hcl : closed c = true)
          by (rewrite (inv_closed c HI), <- (inv_writeChan c HI); exact Hwc).
        destruct wrote; split;
          cbn [writeLoop_return socket_write conn_written writeChan loopRunning closed].
        -- exists []. rewrite binary_frames_close, Hq, !app_nil_r. auto.
        -- intros _. rewrite binary_frames_close. repeat split; auto.
           exists (conn_written c). auto.
        -- exists []. rewrite Hq, !app_nil_r. auto.
        -- intros Hin. contradiction.
      * split; [exists []; rewrite Hq, app_nil_r; auto | intros Hin; contradiction].
    + destruct wrote; split;
        cbn [writeLoop_return socket_write dequeue conn_written writeChan loopRunning
             closed tail].
      * exists []. rewrite binary_frames_data, <- app_assoc, Hq. cbn [tail app]. auto.
      * intros Hin. apply in_snoc_other in Hin; [contradiction | discriminate].
      * exists [message]. rewrite Hq. cbn [tail app].
        split; [exact Hh |]. split; [cbn; lia | discriminate].
      * intros Hin. contradiction.
  - destruct wrote; split;
      cbn [writeLoop_return socket_write conn_written writeChan loopRunning closed].
    + exists []. rewrite binary_frames_ping. auto.
    + intros Hin. apply in_snoc_other in Hin; [contradiction | discriminate].
    + exists []. auto.
    + intros Hin. contradiction.
  - destruct (closeChanClosed c); split;
      cbn [writeLoop_return conn_written writeChan loopRunning closed].
    + exists []. auto.
    + intros Hin. contradiction.
    + exists []. auto.
    + intros Hin. contradiction.
Qed.

Lemma run_Order (events : list Event) (c : WebsocketClientConn) (hist : list string) :
  Inv c -> Order c hist ->
  exists c', run c events = Returns c' /\ Inv c' /\ Order c' (hist ++ accepted c events).
Proof.
  revert c hist. induction events as [| e events IH]; intros c hist HI HO.
  - exists c. cbn. rewrite app_nil_r. auto.
  - cbn [run accepted].
    destruct (step_Inv c e HI) as (c1 & Hstep & HI1 & _).
    assert (HO1 : Order c1 (hist ++ accepts c e)).
    { destruct e as [data | | choice].
      - apply (Order_write c hist data c1 HI HO Hstep).
      - cbn [accepts]. rewrite app_nil_r. apply (Order_close c hist c1 HI HO Hstep).
      - cbn [accepts]. rewrite app_nil_r. cbn [step] in Hstep. injection Hstep as <-.
        apply Order_loop; assumption. }
    rewrite Hstep.
    destruct (IH c1 _ HI1 HO1) as (c' & Hrun & HI' & HO').
    exists c'. rewrite app_assoc. auto.
Qed.

(** Frames go out in the order they came in.  After any run of a
    connection, the data frames written to the socket, then at most one
    frame lost, then the frames still queued, are the frames
    [WriteMessage] has taken, in the order it took them: no frame is
    written twice, out of turn, or without having been taken.  A frame is
    lost only by the failed socket write that ends the write loop. *)
Theorem frames_in_order (events : list Event) :
  exists c lost,
    run NewWebSocketClientConn events = Returns c /\
    accepted NewWebSocketClientConn events
    = (binary_frames (conn_written c) ++ lost ++ writeChan c)%list /\
    (length lost <= 1)%nat /\
    (loopRunning c = true -> lost = []).
Proof.
  destruct (run_Order events NewWebSocketClientConn [] Inv_new Order_new)
    as (c & Hrun & _ & [(lost & Hh & Hl & Hr) _]).
  exists c, lost. auto.
Qed.

(** The close frame is the last word.  If a close frame has been written
    to the socket, it is the last frame written and the only close frame;
    the connection is closed, the write loop has returned, the queue is
    empty, and every frame [WriteMessage] ever took was written before
    it. *)
Theorem close_frame_last (events : list Event) :
  exists c,
    run NewWebSocketClientConn events = Returns c /\
    (In CloseMessage (conn_written c) ->
     (exists pre, conn_written c = (pre ++ [CloseMessage])%list /\ ~ In CloseMessage pre) /\
     closed c = true /\ loopRunning c = false /\ writeChan c = [] /\
     accepted NewWebSocketClientConn events = binary_frames (conn_written c)).
Proof.
  destruct (run_Order events NewWebSocketClientConn [] Inv_new Order_new)
    as (c & Hrun & _ & [_ Hclose]).
  exists c. split; [exact Hrun |]. intros Hin.
  destruct (Hclose Hin) as (Hr & Hc & Hq & Hh & Hpre). auto.
Qed.

(** Two frames are taken, the connection is closed, and the write loop
    happens to see the closed [closeChan] first: it returns, and the two
    frames [WriteMessage] returned nil for are never written. *)
Example closed_before_drained :
  match run NewWebSocketClientConn
          [EvWriteMessage "1"; EvWriteMessage "2"; EvClose; EvLoop RecvCloseChan;
           EvLoop (RecvWriteChan true)] with
  | Returns c => conn_written c = [] /\ writeChan c = ["1"; "2"] /\ conn_closes c = 1%nat
  | Panics => False
  end.
Proof. repeat split. Qed.

(** The same, with the loop draining the queue first: both frames and
    then the close frame. *)
Example drained_before_closed :
  match run NewWebSocketClientConn
          [EvWriteMessage "1"; EvWriteMessage "2"; EvClose; EvLoop (RecvWriteChan true);
           EvLoop (RecvWriteChan true); EvLoop (RecvWriteChan true)] with
  | Returns c =>
      conn_written c = [BinaryMessage "1"; BinaryMessage "2"; CloseMessage]
  | Panics => False
  end.
Proof. reflexivity. Qed.

End ConnOrder.

(** *** Walking the pages of the conversation list *)

Module PageWalk.
Import entity repository service handler ListPage.

Section Walk.

Context `{Messages} {DB : Type}.
Variable s : ConversationService DB.
Variable db : DB.
Variable userId : string.
Variable withLastMessage : bool.
Variable limit : Z.

(** A client that asks for the first page and then follows [next_cursor]
    for as long as there is one (for [fuel] pages at most): the rows it
    is given, in the order it is given them. *)
Fixpoint walk (fuel : nat) (cursorUpdatedAt : Z) (cursorConversationId : string)
  : list (ConversationInfo.t MessageInfo) :=
  match fuel with
  | O => []
  | S fuel' =>
      match GetUserConversationsPage s db userId withLastMessage limit
              cursorUpdatedAt cursorConversationId with
      | (Some res, None) =>
          (List res
           ++ match NextCursor res with
              | Some next =>
                  walk fuel' (cursor_UpdatedAt next) (cursor_ConversationId next)
              | None => []
              end)%list
      | _ => []
      end
  end.

(** The cursor that stands after the first [j] rows of [all]: none for
    [j = 0], the key of row [j - 1] otherwise. *)
Definition cursor_after (all : list ConversationWithSeq.t) (j : nat) : Z * string :=
  match j with
  | O => (0, EmptyString)
  | S k =>
      match all !! k with
      | Some row => (ConversationWithSeq.UpdatedAt row, ConversationWithSeq.ConversationId row)
      | None => (0, EmptyString)
      end
  end.

(** The storage layer pages by key: the user's rows are [all], in the
    order of the list query, and asked for [n] rows after the key of one
    of them it returns the [n] that follow it. *)
Definition pages_by_key (all : list ConversationWithSeq.t) : Prop :=
  forall j n, (j <= length all)%nat -> 0 <= n ->
    GetUserConversationsWithSeqPage (convRepo s) db userId n
      (fst (cursor_after all j)) (snd (cursor_after all j))
    = (take (Z.to_nat n) (drop j all), None).

(** Reading the last messages does not fail. *)
Definition messages_ok : Prop :=
  forall m, snd (BatchGetByConvSeq (msgRepo s) db m) = None.

Lemma page_after (all : list ConversationWithSeq.t) (j : nat) :
  pages_by_key all -> messages_ok -> (j <= length all)%nat ->
  let size := Z.to_nat (clamp_limit limit) in
  exists res,
    GetUserConversationsPage s db userId withLastMessage limit
      (fst (cursor_after all j)) (snd (cursor_after all j)) = (Some res, None) /\
    ConversationInfo.ConversationId <$> List res
    = ConversationWithSeq.ConversationId <$> take size (drop j all) /\
    NextCursor res
    = if (size <? length (drop j all))%nat
      then Some {| cursor_UpdatedAt := fst (cursor_after all (j + size));
                   cursor_ConversationId := snd (cursor_after all (j + size)) |}
      else None.
Proof.
  intros Hkey Hmsg Hj size.
  pose proof (clamp_limit_range limit) as Hr.
  assert (Hsize : (1 <= size)%nat) by (unfold size; lia).
  unfold GetUserConversationsPage.
  rewrite (Hkey j (clamp_limit limit + 1) Hj ltac:(lia)).
  replace (Z.to_nat (clamp_limit limit + 1)) with (S size) by (unfold size; lia).
  set (rest := drop j all).
  assert (Hmore : (clamp_limit limit <? Z.of_nat (length (take (S size) rest)))
                  = (size <? length rest)%nat).
  { rewrite length_take.
    destruct (Nat.ltb_spec size (length rest));
      destruct (Z.ltb_spec (clamp_limit limit)
                  (Z.of_nat (Nat.min (S size) (length rest))));
      try reflexivity; unfold size in *; lia. }
  rewrite Hmore.
  assert (Hkept : (if (size <? length rest)%nat
                   then firstn (Z.to_nat (clamp_limit limit)) (take (S size) rest)
                   else take (S size) rest) = take size rest).
  { fold size. destruct (Nat.ltb_spec size (length rest)).
    - change firstn with (@take ConversationWithSeq.t). rewrite take_take. f_equal. lia.
    - rewrite !take_ge by lia. reflexivity. }
  rewrite Hkept.
  destruct (buildConversationInfos_ok s db userId withLastMessage (take size rest))
    as [m Hm]; [intros _; apply Hmsg |].
  rewrite Hm. eexists. split; [reflexivity |]. cbn [List NextCursor].
  split; [rewrite <- list_fmap_compose; reflexivity |].
  destruct (Nat.ltb_spec size (length rest)) as [Hlt | Hge]; cbn [andb]; [| reflexivity].
  assert (Hlen : length (take size rest) = size) by (rewrite length_take; lia).
  rewrite Hlen.
  replace (0 <? Z.of_nat size) with true by (symmetry; apply Z.ltb_lt; lia).
  rewrite last_lookup, Hlen.
  rewrite lookup_take_lt by lia. unfold rest. rewrite lookup_drop.
  unfold rest in Hlt. rewrite length_drop in Hlt.
  destruct (lookup_lt_is_Some_2 all (j + pred size)) as [row Hrow]; [lia |].
  rewrite Hrow. unfold cursor_after.
  replace (j + size)%nat with (S (j + pred size)) by lia.
  rewrite Hrow. reflexivity.
Qed.

Lemma walk_after (all : list ConversationWithSeq.t) (fuel j : nat) :
  pages_by_key all -> messages_ok ->
  (j <= length all)%nat -> (length all - j < fuel)%nat ->
  ConversationInfo.ConversationId
    <$> walk fuel (fst (cursor_after all j)) (snd (cursor_after all j))
  = ConversationWithSeq.ConversationId <$> drop j all.
Proof.
  intros Hkey Hmsg. revert j. induction fuel as [| fuel IH]; intros j Hj Hfuel; [lia |].
  cbn [walk].
  destruct (page_after all j Hkey Hmsg Hj) as (res & -> & Hids & Hnext).
  pose proof (clamp_limit_range limit) as Hr.
  set (size := Z.to_nat (clamp_limit limit)) in *.
  rewrite fmap_app, Hids, Hnext.
  rewrite length_drop.
  destruct (Nat.ltb_spec size (length all - j)) as [Hlt | Hge].
  - cbn [cursor_UpdatedAt cursor_ConversationId].
    rewrite IH by (unfold size in *; lia).
    rewrite <- fmap_app. f_equal.
    rewrite <- (take_drop size (drop j all)) at 2.
    rewrite drop_drop. reflexivity.
  - cbn [fmap list_fmap]. rewrite app_nil_r, take_ge; [reflexivity |].
    rewrite length_drop. lia.
Qed.

End Walk.

(** Following [next_cursor] from the first page gives every conversation
    once, in the order of the list, whatever the page size asked for, and
    so the same conversations as the unpaged [GetAllUserConversations]:
    provided the storage layer pages by key and can read the last
    messages, and the client goes on for as many pages as there are
    rows. *)
Theorem pages_cover_the_list `{Messages} {DB : Type} (s : ConversationService DB) (db : DB)
    (userId : string) (withLastMessage : bool) (limit : Z)
    (all : list ConversationWithSeq.t) (fuel : nat) :
  pages_by_key s db userId all ->
  messages_ok s db ->
  (length all < fuel)%nat ->
  ConversationInfo.ConversationId
    <$> walk s db userId withLastMessage limit fuel 0 EmptyString
  = ConversationWithSeq.ConversationId <$> all /\
  forall GetUserConversationsWithSeq,
    GetUserConversationsWithSeq db userId = (all, None) ->
    exists infos,
      service_rest.GetAllUserConversations GetUserConversationsWithSeq s db userId
        withLastMessage = (infos, None) /\
      ConversationInfo.ConversationId <$> infos
      = ConversationInfo.ConversationId
          <$> walk s db userId withLastMessage limit fuel 0 EmptyString.
Proof.
  intros Hkey Hmsg Hfuel.
  assert (Hwalk : ConversationInfo.ConversationId
                    <$> walk s db userId withLastMessage limit fuel 0 EmptyString
                  = ConversationWithSeq.ConversationId <$> all)
    by (apply (walk_after s db userId withLastMessage limit all fuel 0 Hkey Hmsg); lia).
  split; [exact Hwalk |].
  intros getAll Hall. unfold service_rest.GetAllUserConversations. rewrite Hall.
  destruct (buildConversationInfos_ok s db userId withLastMessage all) as [m Hm];
    [intros _; apply Hmsg |].
  rewrite Hm. eexists. split; [reflexivity |].
  rewrite Hwalk, <- list_fmap_compose. reflexivity.
Qed.

Lemma pages_cover_the_list_witness :
  ConversationInfo.ConversationId
    <$> walk Fixtures.mem_service Fixtures.alice_db "alice" true 2 4 0 EmptyString
  = ["c_a"; "c_b"; "c_c"].
Proof.
  apply (pages_cover_the_list Fixtures.mem_service Fixtures.alice_db "alice" true 2
           (Fixtures.mem_rows Fixtures.alice_db) 4).
  - intros j n Hj Hn. cbn in Hj.
    destruct j as [| [| [| [| j]]]]; try reflexivity. lia.
  - intros m. reflexivity.
  - cbn. lia.
Defined.

End PageWalk.
